(** * Source Search plugin: the source index and its query engine

    A shallow embedding of [src/source-item.hpp], [src/source-item.cpp] and of
    [SourceSearchDock::UpdateResults] ([src/source-search-dock.cpp]), together
    with the properties of the snapshot builder, the relationship linker and
    the query engine.

    The host (libobs and the frontend API) is modelled as a value [Host]: the
    objects it knows, addressed by handle, and the answers it gives to the
    read-only queries the plugin makes.  [std::string] is [string] (a sequence
    of 8-bit characters), [std::set<std::string>] is a strictly increasing
    list, [std::map] is a [gmap], and a [SourceItem *] is the position of the
    item in the owning vector [sources]. *)

From Stdlib Require Import String Ascii List Sorted Permutation Bool Arith Lia.
From stdpp Require Import gmap strings list fin_maps.

Local Open Scope string_scope.
Local Open Scope nat_scope.

(** ** The host object graph *)

Module Obs.

Inductive obs_source_type :=
| OBS_SOURCE_TYPE_INPUT
| OBS_SOURCE_TYPE_FILTER
| OBS_SOURCE_TYPE_TRANSITION
| OBS_SOURCE_TYPE_SCENE.

Definition obs_source_type_eqb (a b : obs_source_type) : bool :=
  match a, b with
  | OBS_SOURCE_TYPE_INPUT, OBS_SOURCE_TYPE_INPUT
  | OBS_SOURCE_TYPE_FILTER, OBS_SOURCE_TYPE_FILTER
  | OBS_SOURCE_TYPE_TRANSITION, OBS_SOURCE_TYPE_TRANSITION
  | OBS_SOURCE_TYPE_SCENE, OBS_SOURCE_TYPE_SCENE => true
  | _, _ => false
  end.

(** An [obs_source_t *] is [None] for [nullptr] and [Some p] for the
    object stored under handle [p]. *)
Definition source_ptr := option nat.

(** What the host answers about one object.  A [const char *] answer is
    an [option string], [None] standing for [NULL]. *)
Record obs_source := {
  info_type : obs_source_type;           (* obs_source_get_type *)
  context_name : option string;          (* obs_source_get_name *)
  info_id : option string;               (* obs_source_get_id *)
  context_uuid : option string;          (* obs_source_get_uuid *)
  is_scene : bool;                       (* obs_source_is_scene *)
  is_group : bool;                       (* obs_source_is_group *)
  alive : bool;                          (* obs_weak_source_get_source succeeds *)
  filters : list source_ptr;             (* obs_source_enum_filters, in order *)
  scene_items : option (list source_ptr) (* obs_scene_from_source, then the
                                            obs_sceneitem_get_source of each
                                            item of obs_scene_enum_items *)
}.

Record Host := {
  objects : list obs_source;             (* handle = position *)
  all_sources : list source_ptr;         (* obs_enum_all_sources, in order *)
  frontend_scenes : list nat;            (* obs_frontend_get_scenes *)
  display_names : gmap string string     (* obs_source_get_display_name *)
}.

(** Dereferencing.  A handle the host does not know is treated like the
    null pointer by every query. *)
Definition deref (h : Host) (p : source_ptr) : option obs_source :=
  match p with
  | None => None
  | Some n => objects h !! n
  end.

Definition obs_source_get_uuid (h : Host) (p : source_ptr) : option string :=
  match deref h p with
  | None => None
  | Some o => context_uuid o
  end.

Definition obs_source_get_name (h : Host) (p : source_ptr) : option string :=
  match deref h p with
  | None => None
  | Some o => context_name o
  end.

(** [obs_weak_source_get_source]: a strong reference, or [nullptr] once the
    object has been destroyed. *)
Definition obs_weak_source_get_source (h : Host) (w : nat) : source_ptr :=
  match objects h !! w with
  | Some o => if alive o then Some w else None
  | None => None
  end.

Definition obs_source_get_display_name (h : Host) (id : string) : option string :=
  display_names h !! id.

End Obs.
Import Obs.

(** ** C and C++ library functions used by the plugin *)

Module Cxx.

(** [std::tolower] on an [unsigned char], in the "C" locale. *)
Definition tolower (c : ascii) : ascii :=
  let n := nat_of_ascii c in
  if (65 <=? n) && (n <=? 90) then ascii_of_nat (n + 32) else c.

Fixpoint lower (s : string) : string :=
  match s with
  | EmptyString => EmptyString
  | String a s' => String (tolower a) (lower s')
  end.

(** The inner loop of [std::search]: does [needle] match at the start of
    [hay] under the predicate [p]? *)
Fixpoint match_here (p : ascii -> ascii -> bool) (hay needle : string)
    {struct needle} : bool :=
  match needle with
  | EmptyString => true
  | String b needle' =>
      match hay with
      | EmptyString => false
      | String a hay' => p a b && match_here p hay' needle'
      end
  end.

(** [std::search(first, last, s_first, s_last, p)]: the offset of the first
    match, or the offset of [last] (the length of [hay]) when there is
    none. *)
Fixpoint std_search (p : ascii -> ascii -> bool) (hay needle : string) : nat :=
  if match_here p hay needle then 0
  else match hay with
       | EmptyString => 0
       | String _ hay' => S (std_search p hay' needle)
       end.

(** [strstr(hay, needle) != nullptr]. *)
Definition strstr_found (hay needle : string) : bool :=
  match needle with
  | EmptyString => true
  | _ => negb (std_search Ascii.eqb hay needle =? String.length hay)
  end.

(** [std::set<std::string>::insert] on the increasing list of the set's
    elements. *)
Fixpoint set_insert (x : string) (s : list string) : list string :=
  match s with
  | [] => [x]
  | y :: s' =>
      match String.compare x y with
      | Lt => x :: s
      | Eq => s
      | Gt => y :: set_insert x s'
      end
  end.

(** [std::sort(first, last, comp)].  The standard fixes the result only up
    to the order of equivalent elements; this is insertion sort, and the
    theorems below use nothing but that its result is an ordered
    rearrangement of its argument. *)
Section Sort.
Context {A : Type} (comp : A -> A -> bool).

Fixpoint sort_insert (x : A) (l : list A) : list A :=
  match l with
  | [] => [x]
  | y :: l' => if comp y x then y :: sort_insert x l' else x :: l
  end.

Fixpoint std_sort (l : list A) : list A :=
  match l with
  | [] => []
  | x :: l' => sort_insert x (std_sort l')
  end.
End Sort.

End Cxx.
Import Cxx.

(** ** [SourceItem] *)

Inductive SourceClass := Source | Scene | Group | Filter.

Definition SourceClass_eqb (a b : SourceClass) : bool :=
  match a, b with
  | Source, Source | Scene, Scene | Group, Group | Filter, Filter => true
  | _, _ => false
  end.

(** Known source type display names ([SOURCE_TYPE_NAMES]). *)
Definition SOURCE_TYPE_NAMES : list (string * string) :=
  [ ("scene", "Scene");
    ("group", "Group");
    ("image_source", "Image");
    ("color_source", "Color Source");
    ("color_source_v3", "Color Source v3");
    ("slideshow", "Image Slide Show");
    ("browser_source", "Browser");
    ("ffmpeg_source", "Media Source");
    ("vlc_source", "VLC Video Source");
    ("text_gdiplus", "Text (GDI+)");
    ("text_gdiplus_v2", "Text (GDI+) v2");
    ("text_gdiplus_v3", "Text (GDI+) v3");
    ("text_ft2_source", "Text (FreeType 2)");
    ("text_ft2_source_v2", "Text (FreeType 2) v2");
    ("monitor_capture", "Display Capture");
    ("window_capture", "Window Capture");
    ("game_capture", "Game Capture");
    ("dshow_input", "Video Capture Device");
    ("wasapi_input_capture", "Audio Input Capture");
    ("wasapi_output_capture", "Audio Output Capture");
    ("pulse_input_capture", "Audio Input Capture (PulseAudio)");
    ("pulse_output_capture", "Audio Output Capture (PulseAudio)");
    ("ndi_source", "NDI Source");
    ("obs_stinger_transition", "Stinger") ].

Fixpoint map_find (k : string) (m : list (string * string)) : option string :=
  match m with
  | [] => None
  | (k', v) :: m' => if String.eqb k k' then Some v else map_find k m'
  end.

Definition GetTypeDisplayName (h : Host) (typeId : string) : string :=
  match map_find typeId SOURCE_TYPE_NAMES with
  | Some v => v
  | None =>
      match obs_source_get_display_name h typeId with
      | Some displayName =>
          if 0 <? String.length displayName then displayName else typeId
      | None => typeId
      end
  end.

Definition ContainsCaseInsensitive (haystack needle : string) : bool :=
  match needle with
  | EmptyString => true
  | _ =>
      match haystack with
      | EmptyString => false
      | _ =>
          negb (std_search (fun a b => Ascii.eqb (tolower a) (tolower b))
                           haystack needle
                =? String.length haystack)
      end
  end.

Record SourceItem := {
  weakSource : option nat;         (* obs_weak_source_t *, None = nullptr *)
  sourceClass : SourceClass;
  parentScenes : list string;      (* std::set<std::string> *)
  parentSourceName : string;
  cachedTypeId : string
}.

Module Item.

(** [SourceItem::SourceItem(obs_source_t *source)]. *)
Definition new (h : Host) (source : source_ptr) : SourceItem :=
  match source, deref h source with
  | Some p, Some o =>
      {| weakSource := Some p;
         sourceClass :=
           if obs_source_type_eqb (info_type o) OBS_SOURCE_TYPE_FILTER then Filter
           else if is_scene o then Scene
           else if is_group o then Group
           else Source;
         parentScenes := [];
         parentSourceName := "";
         cachedTypeId := match info_id o with Some typeId => typeId | None => "" end |}
  | _, _ =>
      {| weakSource := None; sourceClass := Source; parentScenes := [];
         parentSourceName := ""; cachedTypeId := "" |}
  end.

Definition GetSource (h : Host) (it : SourceItem) : source_ptr :=
  match weakSource it with
  | None => None
  | Some w => obs_weak_source_get_source h w
  end.

Definition GetName (h : Host) (it : SourceItem) : string :=
  match GetSource h it with
  | None => ""
  | Some p => match obs_source_get_name h (Some p) with Some name => name | None => "" end
  end.

Definition IsFilter (it : SourceItem) : bool := SourceClass_eqb (sourceClass it) Filter.
Definition IsScene (it : SourceItem) : bool := SourceClass_eqb (sourceClass it) Scene.
Definition IsGroup (it : SourceItem) : bool := SourceClass_eqb (sourceClass it) Group.

Definition IsVerticalCanvas (h : Host) (it : SourceItem) : bool :=
  if negb (IsScene it) then false
  else match GetSource h it with
       | None => false
       | Some p => negb (existsb (Nat.eqb p) (frontend_scenes h))
       end.

Definition GetDisplayName (h : Host) (it : SourceItem) : string :=
  let name := GetName h it in
  match name with
  | EmptyString => name
  | _ =>
      if IsScene it
      then (if IsVerticalCanvas h it then "(V) " else "(H) ") +:+ name
      else name
  end.

Definition GetUUID (h : Host) (it : SourceItem) : string :=
  match GetSource h it with
  | None => ""
  | Some p => match obs_source_get_uuid h (Some p) with Some uuid => uuid | None => "" end
  end.

Definition GetTypeId (it : SourceItem) : string := cachedTypeId it.

Definition GetTypeDisplayName (h : Host) (it : SourceItem) : string :=
  GetTypeDisplayName h (cachedTypeId it).

Definition AddParentScene (sceneName : string) (it : SourceItem) : SourceItem :=
  {| weakSource := weakSource it;
     sourceClass := sourceClass it;
     parentScenes := set_insert sceneName (parentScenes it);
     parentSourceName := parentSourceName it;
     cachedTypeId := cachedTypeId it |}.

Definition SetParentSourceName (sourceName : string) (it : SourceItem) : SourceItem :=
  {| weakSource := weakSource it;
     sourceClass := sourceClass it;
     parentScenes := parentScenes it;
     parentSourceName := sourceName;
     cachedTypeId := cachedTypeId it |}.

Definition MatchesSearch (h : Host) (it : SourceItem) (searchText : string) : bool :=
  match searchText with
  | EmptyString => true
  | _ => if ContainsCaseInsensitive (GetName h it) searchText then true else false
  end.

Definition MatchesType (it : SourceItem) (typeFilter : string) : bool :=
  match typeFilter with
  | EmptyString => true
  | _ => if String.eqb typeFilter "all" then true
         else String.eqb (cachedTypeId it) typeFilter
  end.

Definition IsValid (h : Host) (it : SourceItem) : bool :=
  match GetSource h it with
  | Some _ => true
  | None => false
  end.

End Item.

(** ** [SourceCollection] *)

Record SourceCollection := {
  sources : list SourceItem;           (* std::vector<std::unique_ptr<SourceItem>> *)
  sourcesByUUID : gmap string nat;     (* uuid -> position of the item in [sources] *)
  discoveredTypes : gmap string string (* typeId -> displayName *)
}.

Module Collection.

Definition Clear (c : SourceCollection) : SourceCollection :=
  {| sources := []; sourcesByUUID := ∅; discoveredTypes := ∅ |}.

(** [uuid && sourcesByUUID.find(uuid) != sourcesByUUID.end()] *)
Definition uuid_recorded (uuid : option string) (c : SourceCollection) : bool :=
  match uuid with
  | None => false
  | Some u => match sourcesByUUID c !! u with Some _ => true | None => false end
  end.

(** The blocks "Track discovered type" and "Add to collections", which
    [AddSource] and [AddFilter] share word for word. *)
Definition add_to_collections (h : Host) (typeId : string) (uuid : option string)
    (item : SourceItem) (c : SourceCollection) : SourceCollection :=
  {| sources := sources c ++ [item];
     sourcesByUUID :=
       match uuid with
       | Some u => <[u := length (sources c)]> (sourcesByUUID c)
       | None => sourcesByUUID c
       end;
     discoveredTypes :=
       match discoveredTypes c !! typeId with
       | None => <[typeId := GetTypeDisplayName h typeId]> (discoveredTypes c)
       | Some _ => discoveredTypes c
       end |}.

Definition AddSource (h : Host) (source : source_ptr) (c : SourceCollection)
  : SourceCollection :=
  match deref h source with
  | None => c
  | Some o =>
      if obs_source_type_eqb (info_type o) OBS_SOURCE_TYPE_FILTER
         || obs_source_type_eqb (info_type o) OBS_SOURCE_TYPE_TRANSITION
      then c else
      match context_name o with
      | None => c
      | Some name =>
          if String.length name =? 0 then c else
          match info_id o with
          | None => c
          | Some typeId =>
              if String.eqb typeId "audio_monitor" then c else
              if strstr_found typeId "_wrapper_" then c else
              if strstr_found name "(Stinger)" then c else
              if String.eqb typeId "audio_line" then c else
              let uuid := context_uuid o in
              if uuid_recorded uuid c then c else
              let item := Item.new h source in
              if negb (Item.IsValid h item) then c else
              add_to_collections h typeId uuid item c
          end
      end
  end.

Definition AddFilter (h : Host) (filter : source_ptr) (parentName : string)
    (c : SourceCollection) : SourceCollection :=
  match deref h filter with
  | None => c
  | Some o =>
      match context_name o with
      | None => c
      | Some name =>
          if String.length name =? 0 then c else
          match info_id o with
          | None => c
          | Some typeId =>
              if String.eqb typeId "audio_monitor" then c else
              let uuid := context_uuid o in
              if uuid_recorded uuid c then c else
              let item := Item.new h filter in
              if negb (Item.IsValid h item) then c else
              let item := Item.SetParentSourceName parentName item in
              add_to_collections h typeId uuid item c
          end
      end
  end.

(** [obs_enum_all_sources(EnumAllSourcesCallback, this)]: the callback
    always returns [true], so every source is visited. *)
Definition EnumAllSources (h : Host) (c : SourceCollection) : SourceCollection :=
  fold_left (fun c source => AddSource h source c) (all_sources h) c.

(** The body of the loop of [LinkFilters] for one collected item. *)
Definition LinkFilters_item (h : Host) (c : SourceCollection) (item : SourceItem)
  : SourceCollection :=
  match Item.GetSource h item with
  | None => c
  | Some p =>
      let parentName := Item.GetName h item in
      match deref h (Some p) with
      | None => c
      | Some o =>
          fold_left (fun c filter => AddFilter h filter parentName c) (filters o) c
      end
  end.

(** [sourcesToEnumerate] is the copy of the item pointers taken before any
    filter is added; the items it points to are not modified during the
    loop. *)
Definition LinkFilters (h : Host) (c : SourceCollection) : SourceCollection :=
  let sourcesToEnumerate := sources c in
  fold_left (LinkFilters_item h) sourcesToEnumerate c.

(** [it->second->AddParentScene(...)] through the pointer stored in
    [sourcesByUUID]. *)
Definition update_item (i : nat) (f : SourceItem -> SourceItem)
    (c : SourceCollection) : SourceCollection :=
  {| sources := alter f i (sources c);
     sourcesByUUID := sourcesByUUID c;
     discoveredTypes := discoveredTypes c |}.

(** The callback handed to [obs_scene_enum_items]. *)
Definition link_scene_item (h : Host) (sceneName : string) (c : SourceCollection)
    (itemSource : source_ptr) : SourceCollection :=
  match deref h itemSource with
  | None => c
  | Some o =>
      match context_uuid o with
      | None => c
      | Some uuid =>
          match sourcesByUUID c !! uuid with
          | None => c
          | Some i => update_item i (Item.AddParentScene sceneName) c
          end
      end
  end.

(** The body of the loop of [LinkSceneItems] for the item at position
    [i]. *)
Definition LinkSceneItems_at (h : Host) (c : SourceCollection) (i : nat)
  : SourceCollection :=
  match sources c !! i with
  | None => c
  | Some item =>
      if negb (Item.IsScene item) && negb (Item.IsGroup item) then c else
      match Item.GetSource h item with
      | None => c
      | Some p =>
          match deref h (Some p) with
          | None => c
          | Some o =>
              match scene_items o with
              | None => c
              | Some items =>
                  let sceneName := Item.GetName h item in
                  fold_left (link_scene_item h sceneName) items c
              end
          end
      end
  end.

Definition LinkSceneItems (h : Host) (c : SourceCollection) : SourceCollection :=
  fold_left (LinkSceneItems_at h) (seq 0 (length (sources c))) c.

Definition Refresh (h : Host) (c : SourceCollection) : SourceCollection :=
  LinkSceneItems h (LinkFilters h (EnumAllSources h (Clear c))).

Definition Search (h : Host) (c : SourceCollection) (searchText typeFilter : string)
  : list SourceItem :=
  let results :=
    List.filter
      (fun item =>
         Item.IsValid h item && Item.MatchesType item typeFilter
         && Item.MatchesSearch h item searchText)
      (sources c) in
  std_sort (fun a b => String.ltb (Item.GetName h a) (Item.GetName h b)) results.

End Collection.

(** ** The dock: what [UpdateResults] puts in the result list *)

Module Dock.

(** [parentList.join(", ")] *)
Fixpoint join (sep : string) (l : list string) : string :=
  match l with
  | [] => ""
  | [x] => x
  | x :: l' => x +:+ sep +:+ join sep l'
  end.

Definition displayText (h : Host) (item : SourceItem) : string :=
  let isFilter := Item.IsFilter item in
  let text := Item.GetDisplayName h item in
  let text := text +:+ " [" +:+ Item.GetTypeDisplayName h item +:+ "]" in
  if isFilter then
    let parentSource := parentSourceName item in
    match parentSource with
    | EmptyString => text
    | _ => text +:+ " on: " +:+ parentSource
    end
  else
    match parentScenes item with
    | [] => text
    | parents => text +:+ " in: " +:+ join ", " parents
    end.

(** Is the record shown?  The two scope tests and the orphan test of the
    loop of [UpdateResults]. *)
Definition shown (scopeStr : string) (item : SourceItem) : bool :=
  let isFilter := Item.IsFilter item in
  if String.eqb scopeStr "sources" && isFilter then false
  else if String.eqb scopeStr "filters" && negb isFilter then false
  else if negb isFilter && negb (Item.IsScene item) && negb (Item.IsGroup item)
          && (match parentScenes item with [] => true | _ => false end)
  then false
  else true.

(** The rows of [resultsList] after [UpdateResults]: the text of each row
    and the record kept in its [Qt::UserRole] data. *)
Definition UpdateResults (h : Host) (c : SourceCollection)
    (currentSearchText currentTypeFilter currentSearchScope : string)
  : list (string * SourceItem) :=
  let results := Collection.Search h c currentSearchText currentTypeFilter in
  map (fun item => (displayText h item, item))
      (List.filter (shown currentSearchScope) results).

End Dock.


(** ** Notions used to state the properties *)

Module Spec.

(** [a] does not come after [b] in the byte-wise order of [std::string]:
    [!(b < a)]. *)
Definition not_after (a b : string) : Prop := String.ltb b a = false.

(** A list of records is ordered by the key [key]. *)
Definition ordered_by (key : SourceItem -> string) (l : list SourceItem) : Prop :=
  StronglySorted (fun a b => not_after (key a) (key b)) l.

(** No record is directly followed by one with a smaller key. *)
Fixpoint no_descent (key : SourceItem -> string) (l : list SourceItem) : bool :=
  match l with
  | a :: (b :: _) as l' => negb (String.ltb (key b) (key a)) && no_descent key l'
  | _ => true
  end.

(** [needle] occurs in [hay] up to the case of letters. *)
Definition contains_ci (hay needle : string) : Prop :=
  exists pre mid post, hay = pre +:+ mid +:+ post /\ lower mid = lower needle.

(** The identity the host reports for a record, before [GetUUID] turns a
    null answer into the empty string. *)
Definition reported_uuid (h : Host) (it : SourceItem) : option string :=
  obs_source_get_uuid h (Item.GetSource h it).

(** The tuple by which two snapshots are compared. *)
Definition snapshot_tuple (h : Host) (it : SourceItem)
  : string * SourceClass * string * list string * string :=
  (Item.GetUUID h it, sourceClass it, cachedTypeId it, parentScenes it,
   parentSourceName it).

(** The records that the text filter, the type filter and the validity
    filter let through, in collection order. *)
Definition survivors (h : Host) (c : SourceCollection) (searchText typeFilter : string)
  : list SourceItem :=
  List.filter
    (fun item =>
       Item.IsValid h item && Item.MatchesType item typeFilter
       && Item.MatchesSearch h item searchText)
    (sources c).

(** The classification the constructor of [SourceItem] derives from the
    host's answers about an object. *)
Definition class_of (o : obs_source) : SourceClass :=
  if obs_source_type_eqb (info_type o) OBS_SOURCE_TYPE_FILTER then Filter
  else if is_scene o then Scene
  else if is_group o then Group
  else Source.

(** The collections that arise during one [Refresh] pass: [Clear], then
    calls of [AddSource] and [AddFilter], then links made by the callback
    of [LinkSceneItems]. *)
Inductive InPass (h : Host) : SourceCollection -> Prop :=
| InPass_Clear c :
    InPass h (Collection.Clear c)
| InPass_AddSource c source :
    InPass h c -> InPass h (Collection.AddSource h source c)
| InPass_AddFilter c filter parentName :
    InPass h c -> InPass h (Collection.AddFilter h filter parentName c)
| InPass_link c sceneName itemSource :
    InPass h c -> InPass h (Collection.link_scene_item h sceneName c itemSource).

(** What holds of every collection in a pass: [sourcesByUUID] is exactly
    the map from the reported uuids of the records to their positions, and
    every record stands for a live object and is classified after it. *)
Record Inv (h : Host) (c : SourceCollection) : Prop := {
  inv_lookup : forall u i,
    sourcesByUUID c !! u = Some i ->
    exists it, sources c !! i = Some it /\ reported_uuid h it = Some u;
  inv_recorded : forall i it u,
    sources c !! i = Some it -> reported_uuid h it = Some u ->
    sourcesByUUID c !! u = Some i;
  inv_live : forall i it,
    sources c !! i = Some it ->
    exists p o, weakSource it = Some p /\ objects h !! p = Some o
                /\ alive o = true /\ sourceClass it = class_of o
}.

(** Host contract of [obs_source_enum_filters]: the objects in a filter
    list are of type [OBS_SOURCE_TYPE_FILTER]. *)
Definition filters_are_filters (h : Host) : Prop :=
  forall p o f fo,
    objects h !! p = Some o -> In f (filters o) -> deref h f = Some fo ->
    info_type fo = OBS_SOURCE_TYPE_FILTER.

(** Host contract of scenes: a scene item never shows a filter. *)
Definition scene_items_are_not_filters (h : Host) : Prop :=
  forall p o items child co,
    objects h !! p = Some o -> scene_items o = Some items -> In child items ->
    deref h child = Some co -> info_type co <> OBS_SOURCE_TYPE_FILTER.

(** Host contract of uuids: two objects never report the same uuid. *)
Definition uuids_are_unique (h : Host) : Prop :=
  forall p q o o' u,
    objects h !! p = Some o -> objects h !! q = Some o' ->
    context_uuid o = Some u -> context_uuid o' = Some u -> p = q.

(** The record [sc] is a scene or group whose object is live and holds,
    as a direct child, an object whose reported uuid is [u]. *)
Definition holds_child (h : Host) (sc : SourceItem) (u : string) : Prop :=
  (Item.IsScene sc || Item.IsGroup sc = true) /\
  exists p o items child,
    Item.GetSource h sc = Some p /\ objects h !! p = Some o /\
    scene_items o = Some items /\ In child items /\
    obs_source_get_uuid h child = Some u.

(** [it'] is [it] up to its set of parent scenes. *)
Definition same_record (it it' : SourceItem) : Prop :=
  weakSource it' = weakSource it /\ sourceClass it' = sourceClass it
  /\ parentSourceName it' = parentSourceName it /\ cachedTypeId it' = cachedTypeId it.

(** [c'] is [c] after linking: the same records at the same positions, the
    record at position [i] having gained exactly the parent names [x] with
    [R i x]. *)
Definition linked (R : nat -> string -> Prop) (c c' : SourceCollection) : Prop :=
  sourcesByUUID c' = sourcesByUUID c /\ discoveredTypes c' = discoveredTypes c
  /\ length (sources c') = length (sources c)
  /\ forall i it,
      sources c !! i = Some it ->
      exists it', sources c' !! i = Some it' /\ same_record it it'
                  /\ forall x, In x (parentScenes it') <-> In x (parentScenes it) \/ R i x.

(** The names that [LinkSceneItems] gives the record at position [i] when
    it visits position [j]. *)
Definition linked_at (h : Host) (c : SourceCollection) (j i : nat) (x : string) : Prop :=
  exists sc u,
    sources c !! j = Some sc /\ holds_child h sc u
    /\ sourcesByUUID c !! u = Some i /\ x = Item.GetName h sc.

(** The comparison handed to [std::sort] by [Search]. *)
Definition by_name (h : Host) (a b : SourceItem) : bool :=
  String.ltb (Item.GetName h a) (Item.GetName h b).

(** The order a comparison [comp] stands for: [b] is not before [a]. *)
Definition in_order {A : Type} (comp : A -> A -> bool) (a b : A) : Prop :=
  comp b a = false.

(** The predicate handed to [std::search] by [ContainsCaseInsensitive]. *)
Definition same_letter (a b : ascii) : bool := Ascii.eqb (tolower a) (tolower b).

(** What holds of a record made by [AddSource]. *)
Definition top_ok (h : Host) (it : SourceItem) : Prop :=
  parentSourceName it = "" /\ sourceClass it <> Filter /\ Item.GetName h it <> "".

(** A record has a parent source name exactly when it is a filter. *)
Definition att_ok (it : SourceItem) : Prop :=
  parentSourceName it <> "" <-> sourceClass it = Filter.

End Spec.
Import Spec.

(** ** A small project, used for the concrete instances below *)

Module Example.

Definition object (ty : obs_source_type) (name id uuid : option string)
    (sc gr : bool) (fl : list source_ptr) (items : option (list source_ptr))
  : obs_source :=
  {| info_type := ty; context_name := name; info_id := id; context_uuid := uuid;
     is_scene := sc; is_group := gr; alive := true; filters := fl;
     scene_items := items |}.

(** Scene "Main" (on the main canvas) holds "Cam1" and the group "Grp";
    scene "Vertical" (not in the main list) holds "Cam1" too; "Cam1" has
    the filters "Blur" and "Line"; "Loose1" and "Loose2" are in no scene and
    the host reports no uuid for them.  As in libobs, [obs_scene_from_source]
    answers [NULL] for the group. *)
Definition studio : Host :=
  {| objects :=
       [ object OBS_SOURCE_TYPE_SCENE (Some "Main") (Some "scene") (Some "u0")
           true false [] (Some [Some 2; Some 4]);
         object OBS_SOURCE_TYPE_SCENE (Some "Vertical") (Some "scene") (Some "u1")
           true false [] (Some [Some 2]);
         object OBS_SOURCE_TYPE_INPUT (Some "Cam1") (Some "dshow_input") (Some "u2")
           false false [Some 3; Some 7] None;
         object OBS_SOURCE_TYPE_FILTER (Some "Blur") (Some "color_correction")
           (Some "u3") false false [] None;
         object OBS_SOURCE_TYPE_SCENE (Some "Grp") (Some "group") (Some "u4")
           false true [] None;
         object OBS_SOURCE_TYPE_INPUT (Some "Loose1") (Some "image_source") None
           false false [] None;
         object OBS_SOURCE_TYPE_INPUT (Some "Loose2") (Some "image_source") None
           false false [] None;
         object OBS_SOURCE_TYPE_FILTER (Some "Line") (Some "audio_line") (Some "u7")
           false false [] None ];
     all_sources := [Some 0; Some 1; Some 2; Some 3; Some 4; Some 5; Some 6];
     frontend_scenes := [0];
     display_names := ∅ |}.

Definition empty_collection : SourceCollection :=
  {| sources := []; sourcesByUUID := ∅; discoveredTypes := ∅ |}.

Definition snapshot : SourceCollection := Collection.Refresh studio empty_collection.

(** The same project after "Cam1" has been destroyed. *)
Definition studio_without_cam : Host :=
  {| objects :=
       alter (fun o =>
                {| info_type := info_type o; context_name := context_name o;
                   info_id := info_id o; context_uuid := context_uuid o;
                   is_scene := is_scene o; is_group := is_group o; alive := false;
                   filters := filters o; scene_items := scene_items o |})
             2 (objects studio);
     all_sources := [Some 0; Some 1; Some 3; Some 4; Some 5; Some 6];
     frontend_scenes := [0];
     display_names := ∅ |}.

Definition main_record : SourceItem :=
  {| weakSource := Some 0; sourceClass := Scene; parentScenes := [];
     parentSourceName := ""; cachedTypeId := "scene" |}.

Definition cam_record : SourceItem :=
  {| weakSource := Some 2; sourceClass := Source;
     parentScenes := ["Main"; "Vertical"];
     parentSourceName := ""; cachedTypeId := "dshow_input" |}.

Definition blur_record : SourceItem :=
  {| weakSource := Some 3; sourceClass := Filter; parentScenes := [];
     parentSourceName := "Cam1"; cachedTypeId := "color_correction" |}.

Definition group_record : SourceItem :=
  {| weakSource := Some 4; sourceClass := Group; parentScenes := ["Main"];
     parentSourceName := ""; cachedTypeId := "group" |}.

Definition loose_record : SourceItem :=
  {| weakSource := Some 5; sourceClass := Source; parentScenes := [];
     parentSourceName := ""; cachedTypeId := "image_source" |}.

End Example.

(** ** Further notions: eligibility, persistence, the type catalog *)

Module Notions.

(** [needle] occurs in [hay], byte for byte. *)
Definition contains (hay needle : string) : Prop :=
  exists pre post, hay = pre +:+ needle +:+ post.

(** The tests an object has passed when [AddSource] goes on to the
    duplicate test. *)
Definition source_eligible (o : obs_source) (name typeId : string) : Prop :=
  info_type o <> OBS_SOURCE_TYPE_FILTER /\ info_type o <> OBS_SOURCE_TYPE_TRANSITION
  /\ context_name o = Some name /\ name <> ""
  /\ info_id o = Some typeId /\ typeId <> "audio_monitor"
  /\ strstr_found typeId "_wrapper_" = false
  /\ strstr_found name "(Stinger)" = false
  /\ typeId <> "audio_line".

(** The tests an object has passed when [AddFilter] goes on to the
    duplicate test. *)
Definition filter_eligible (o : obs_source) (name typeId : string) : Prop :=
  context_name o = Some name /\ name <> ""
  /\ info_id o = Some typeId /\ typeId <> "audio_monitor".

(** Every record of [c] is still in [c'], at the same position and with
    the same fields but for its parent scenes. *)
Definition persists (c c' : SourceCollection) : Prop :=
  forall i it,
    sources c !! i = Some it ->
    exists it', sources c' !! i = Some it' /\ same_record it it'.

(** The object [p] is represented in [c]: by a record of its uuid when the
    host reports one, by a record of the object itself otherwise. *)
Definition represented (h : Host) (p : nat) (o : obs_source) (c : SourceCollection)
  : Prop :=
  exists it,
    In it (sources c) /\
    match context_uuid o with
    | Some u => reported_uuid h it = Some u
    | None => weakSource it = Some p
    end.

(** [discoveredTypes] is the catalog of the type tags of the records. *)
Definition catalog_exact (h : Host) (c : SourceCollection) : Prop :=
  (forall typeId displayName,
      discoveredTypes c !! typeId = Some displayName ->
      displayName = GetTypeDisplayName h typeId
      /\ exists it, In it (sources c) /\ cachedTypeId it = typeId)
  /\ (forall it,
        In it (sources c) ->
        discoveredTypes c !! cachedTypeId it
        = Some (GetTypeDisplayName h (cachedTypeId it))).

(** Strictly increasing in the byte-wise order of [std::string]. *)
Definition string_lt (a b : string) : Prop := String.compare a b = Lt.

End Notions.
Import Notions.

(** ** The dock widget: its state and its handlers

    The widgets are modelled by what the handlers read and write: a
    [QComboBox] by its items (text and user data) and its current index, the
    result list by its rows, a single-shot [QTimer] by whether it is active,
    and the queued calls of [QMetaObject::invokeMethod] by their number.  A
    [QString] is modelled by the string it converts to with [toStdString].
    Handlers are taken to run one at a time. *)

From Stdlib Require Import ZArith DecimalString.

Module Qt.

Record QComboBox := {
  combo_items : list (string * string);   (* text, user data *)
  currentIndex : Z                        (* -1 when there is no current item *)
}.

Definition empty_combo : QComboBox := {| combo_items := []; currentIndex := (-1)%Z |}.

Definition clear (cb : QComboBox) : QComboBox := empty_combo.

(** [addItem(text, data)]: the item is appended; an item added to an empty
    box becomes the current one. *)
Definition addItem (text data : string) (cb : QComboBox) : QComboBox :=
  {| combo_items := combo_items cb ++ [(text, data)];
     currentIndex := match combo_items cb with
                     | [] => 0%Z
                     | _ => currentIndex cb
                     end |}.

Fixpoint find_from (data : string) (items : list (string * string)) (i : Z) : Z :=
  match items with
  | [] => (-1)%Z
  | (_, d) :: items' => if String.eqb d data then i else find_from data items' (i + 1)%Z
  end.

(** [findData(data)]: the index of the first item with this data, or -1. *)
Definition findData (data : string) (cb : QComboBox) : Z :=
  find_from data (combo_items cb) 0%Z.

(** [itemData(index).toString()]: the empty string when there is no such
    item. *)
Definition itemData (index : Z) (cb : QComboBox) : string :=
  if (index <? 0)%Z then ""
  else match combo_items cb !! Z.to_nat index with
       | Some (_, d) => d
       | None => ""
       end.

Definition setCurrentIndex (index : Z) (cb : QComboBox) : QComboBox :=
  {| combo_items := combo_items cb; currentIndex := index |}.

(** [QString::number(n)] for a count. *)
Definition number (n : nat) : string := NilZero.string_of_uint (Nat.to_uint n).

End Qt.

Module SearchDock.

(** What the frontend answers the dock. *)
Record Frontend := {
  obs_module_text : string -> string;   (* the locale lookup *)
  obs_get_signal_handler : bool         (* false: the handler is null *)
}.

Record State := {
  sourceCollection : SourceCollection;
  typeFilter : Qt.QComboBox;
  resultsList : list (string * SourceItem);
  statusLabel : string;
  currentSearchText : string;
  currentSearchScope : string;
  currentTypeFilter : string;
  searchTimer : bool;
  refreshTimer : bool;
  refreshStartQueued : nat;    (* queued calls of refreshTimer->start *)
  signalsConnected : bool;
  initialized : bool
}.

(** The scope box as [SetupUI] fills it. *)
Definition searchScope (fe : Frontend) : Qt.QComboBox :=
  Qt.addItem (obs_module_text fe "All") "all"
    (Qt.addItem (obs_module_text fe "Filters") "filters"
       (Qt.addItem (obs_module_text fe "Sources") "sources" Qt.empty_combo)).

(** The constructor, with [SetupUI]. *)
Definition new : State :=
  {| sourceCollection := {| sources := []; sourcesByUUID := ∅; discoveredTypes := ∅ |};
     typeFilter := Qt.empty_combo;
     resultsList := [];
     statusLabel := "";
     currentSearchText := "";
     currentSearchScope := "sources";
     currentTypeFilter := "";
     searchTimer := false;
     refreshTimer := false;
     refreshStartQueued := 0;
     signalsConnected := false;
     initialized := false |}.

Definition ConnectSignals (fe : Frontend) (d : State) : State :=
  if signalsConnected d then d
  else if obs_get_signal_handler fe then
    {| sourceCollection := sourceCollection d; typeFilter := typeFilter d;
       resultsList := resultsList d; statusLabel := statusLabel d;
       currentSearchText := currentSearchText d;
       currentSearchScope := currentSearchScope d;
       currentTypeFilter := currentTypeFilter d;
       searchTimer := searchTimer d; refreshTimer := refreshTimer d;
       refreshStartQueued := refreshStartQueued d;
       signalsConnected := true; initialized := initialized d |}
  else d.

Definition DisconnectSignals (d : State) : State :=
  if negb (signalsConnected d) then d
  else
    {| sourceCollection := sourceCollection d; typeFilter := typeFilter d;
       resultsList := resultsList d; statusLabel := statusLabel d;
       currentSearchText := currentSearchText d;
       currentSearchScope := currentSearchScope d;
       currentTypeFilter := currentTypeFilter d;
       searchTimer := searchTimer d; refreshTimer := refreshTimer d;
       refreshStartQueued := refreshStartQueued d;
       signalsConnected := false; initialized := initialized d |}.

Definition Initialize (fe : Frontend) (d : State) : State := ConnectSignals fe d.

(** The entries of a [std::map] in the order of its iteration: by
    increasing key. *)
Definition map_entries (m : gmap string string) : list (string * string) :=
  std_sort (fun a b => String.ltb (fst a) (fst b)) (map_to_list m).

(** The discovered types as [UpdateTypeFilter] lists them: sorted by
    display name. *)
Definition sortedTypes (c : SourceCollection) : list (string * string) :=
  std_sort (fun a b => String.ltb (snd a) (snd b)) (map_entries (discoveredTypes c)).

(** [UpdateTypeFilter]; the signals of the box are blocked meanwhile, so
    that no handler runs. *)
Definition UpdateTypeFilter (fe : Frontend) (d : State) : State :=
  let currentSelection := currentTypeFilter d in
  let box := Qt.clear (typeFilter d) in
  let box := Qt.addItem (obs_module_text fe "AllTypes") "all" box in
  let box :=
    fold_left (fun box entry => Qt.addItem (snd entry) (fst entry) box)
              (sortedTypes (sourceCollection d)) box in
  let index := Qt.findData currentSelection box in
  {| sourceCollection := sourceCollection d;
     typeFilter := if (0 <=? index)%Z then Qt.setCurrentIndex index box
                   else Qt.setCurrentIndex 0%Z box;
     resultsList := resultsList d; statusLabel := statusLabel d;
     currentSearchText := currentSearchText d;
     currentSearchScope := currentSearchScope d;
     currentTypeFilter := if (0 <=? index)%Z then currentTypeFilter d else "all";
     searchTimer := searchTimer d; refreshTimer := refreshTimer d;
     refreshStartQueued := refreshStartQueued d;
     signalsConnected := signalsConnected d; initialized := initialized d |}.

(** [UpdateResults]: the rows and the status line. *)
Definition UpdateResults (h : Host) (fe : Frontend) (d : State) : State :=
  let rows :=
    Dock.UpdateResults h (sourceCollection d) (currentSearchText d)
      (currentTypeFilter d) (currentSearchScope d) in
  {| sourceCollection := sourceCollection d; typeFilter := typeFilter d;
     resultsList := rows;
     statusLabel := Qt.number (length rows) +:+ " " +:+ obs_module_text fe "ResultsFound";
     currentSearchText := currentSearchText d;
     currentSearchScope := currentSearchScope d;
     currentTypeFilter := currentTypeFilter d;
     searchTimer := searchTimer d; refreshTimer := refreshTimer d;
     refreshStartQueued := refreshStartQueued d;
     signalsConnected := signalsConnected d; initialized := initialized d |}.

Definition PerformSearch (h : Host) (fe : Frontend) (d : State) : State :=
  UpdateResults h fe d.

Definition with_collection (c : SourceCollection) (d : State) : State :=
  {| sourceCollection := c; typeFilter := typeFilter d;
     resultsList := resultsList d; statusLabel := statusLabel d;
     currentSearchText := currentSearchText d;
     currentSearchScope := currentSearchScope d;
     currentTypeFilter := currentTypeFilter d;
     searchTimer := searchTimer d; refreshTimer := refreshTimer d;
     refreshStartQueued := refreshStartQueued d;
     signalsConnected := signalsConnected d; initialized := initialized d |}.

Definition OnSourcesChanged (h : Host) (fe : Frontend) (d : State) : State :=
  let d := with_collection (Collection.Refresh h (sourceCollection d)) d in
  let d := UpdateTypeFilter fe d in
  PerformSearch h fe d.

Definition showEvent (h : Host) (fe : Frontend) (d : State) : State :=
  if negb (initialized d) then
    let d :=
      {| sourceCollection := sourceCollection d; typeFilter := typeFilter d;
         resultsList := resultsList d; statusLabel := statusLabel d;
         currentSearchText := currentSearchText d;
         currentSearchScope := currentSearchScope d;
         currentTypeFilter := currentTypeFilter d;
         searchTimer := searchTimer d; refreshTimer := refreshTimer d;
         refreshStartQueued := refreshStartQueued d;
         signalsConnected := signalsConnected d; initialized := true |} in
    let d := with_collection (Collection.Refresh h (sourceCollection d)) d in
    let d := UpdateTypeFilter fe d in
    PerformSearch h fe d
  else d.

(** [Cleanup].  Clearing the type box makes it signal the index -1, for
    which [OnTypeFilterChanged] returns at once. *)
Definition Cleanup (d : State) : State :=
  let d := DisconnectSignals d in
  {| sourceCollection := Collection.Clear (sourceCollection d);
     typeFilter := Qt.clear (typeFilter d);
     resultsList := []; statusLabel := statusLabel d;
     currentSearchText := currentSearchText d;
     currentSearchScope := currentSearchScope d;
     currentTypeFilter := currentTypeFilter d;
     searchTimer := searchTimer d; refreshTimer := refreshTimer d;
     refreshStartQueued := refreshStartQueued d;
     signalsConnected := signalsConnected d; initialized := initialized d |}.

(** [OnSourceCreate], [OnSourceDestroy] and [OnSourceRename] are the same
    function: a start of the refresh timer is queued once the dock has been
    shown. *)
Definition OnSourceSignal (d : State) : State :=
  if initialized d then
    {| sourceCollection := sourceCollection d; typeFilter := typeFilter d;
       resultsList := resultsList d; statusLabel := statusLabel d;
       currentSearchText := currentSearchText d;
       currentSearchScope := currentSearchScope d;
       currentTypeFilter := currentTypeFilter d;
       searchTimer := searchTimer d; refreshTimer := refreshTimer d;
       refreshStartQueued := S (refreshStartQueued d);
       signalsConnected := signalsConnected d; initialized := initialized d |}
  else d.

(** The event loop runs a queued [refreshTimer->start()]. *)
Definition run_queued_start (d : State) : State :=
  {| sourceCollection := sourceCollection d; typeFilter := typeFilter d;
     resultsList := resultsList d; statusLabel := statusLabel d;
     currentSearchText := currentSearchText d;
     currentSearchScope := currentSearchScope d;
     currentTypeFilter := currentTypeFilter d;
     searchTimer := searchTimer d; refreshTimer := true;
     refreshStartQueued := pred (refreshStartQueued d);
     signalsConnected := signalsConnected d; initialized := initialized d |}.

(** The refresh timer fires: it stops, being single-shot, and
    [OnSourcesChanged] runs. *)
Definition refreshTimer_timeout (h : Host) (fe : Frontend) (d : State) : State :=
  OnSourcesChanged h fe
    {| sourceCollection := sourceCollection d; typeFilter := typeFilter d;
       resultsList := resultsList d; statusLabel := statusLabel d;
       currentSearchText := currentSearchText d;
       currentSearchScope := currentSearchScope d;
       currentTypeFilter := currentTypeFilter d;
       searchTimer := searchTimer d; refreshTimer := false;
       refreshStartQueued := refreshStartQueued d;
       signalsConnected := signalsConnected d; initialized := initialized d |}.

Definition OnSearchTextChanged (text : string) (d : State) : State :=
  {| sourceCollection := sourceCollection d; typeFilter := typeFilter d;
     resultsList := resultsList d; statusLabel := statusLabel d;
     currentSearchText := text;
     currentSearchScope := currentSearchScope d;
     currentTypeFilter := currentTypeFilter d;
     searchTimer := true; refreshTimer := refreshTimer d;
     refreshStartQueued := refreshStartQueued d;
     signalsConnected := signalsConnected d; initialized := initialized d |}.

(** The search timer fires: it stops, and [PerformSearch] runs. *)
Definition searchTimer_timeout (h : Host) (fe : Frontend) (d : State) : State :=
  PerformSearch h fe
    {| sourceCollection := sourceCollection d; typeFilter := typeFilter d;
       resultsList := resultsList d; statusLabel := statusLabel d;
       currentSearchText := currentSearchText d;
       currentSearchScope := currentSearchScope d;
       currentTypeFilter := currentTypeFilter d;
       searchTimer := false; refreshTimer := refreshTimer d;
       refreshStartQueued := refreshStartQueued d;
       signalsConnected := signalsConnected d; initialized := initialized d |}.

Definition OnSearchScopeChanged (h : Host) (fe : Frontend) (index : Z) (d : State)
  : State :=
  if (index <? 0)%Z then d
  else
    PerformSearch h fe
      {| sourceCollection := sourceCollection d; typeFilter := typeFilter d;
         resultsList := resultsList d; statusLabel := statusLabel d;
         currentSearchText := currentSearchText d;
         currentSearchScope := Qt.itemData index (searchScope fe);
         currentTypeFilter := currentTypeFilter d;
         searchTimer := searchTimer d; refreshTimer := refreshTimer d;
         refreshStartQueued := refreshStartQueued d;
         signalsConnected := signalsConnected d; initialized := initialized d |}.

(** The user picks the item [index] of the type box: the box makes it
    current and signals it to [OnTypeFilterChanged]. *)
Definition OnTypeFilterChanged (h : Host) (fe : Frontend) (index : Z) (d : State)
  : State :=
  if (index <? 0)%Z then d
  else
    PerformSearch h fe
      {| sourceCollection := sourceCollection d; typeFilter := typeFilter d;
         resultsList := resultsList d; statusLabel := statusLabel d;
         currentSearchText := currentSearchText d;
         currentSearchScope := currentSearchScope d;
         currentTypeFilter := Qt.itemData index (typeFilter d);
         searchTimer := searchTimer d; refreshTimer := refreshTimer d;
         refreshStartQueued := refreshStartQueued d;
         signalsConnected := signalsConnected d; initialized := initialized d |}.

Definition type_picked (h : Host) (fe : Frontend) (index : Z) (d : State) : State :=
  OnTypeFilterChanged h fe index
    {| sourceCollection := sourceCollection d;
       typeFilter := Qt.setCurrentIndex index (typeFilter d);
       resultsList := resultsList d; statusLabel := statusLabel d;
       currentSearchText := currentSearchText d;
       currentSearchScope := currentSearchScope d;
       currentTypeFilter := currentTypeFilter d;
       searchTimer := searchTimer d; refreshTimer := refreshTimer d;
       refreshStartQueued := refreshStartQueued d;
       signalsConnected := signalsConnected d; initialized := initialized d |}.

(** [OpenSourceProperties] and [OpenSourceFilters]: the source handed to
    the frontend, if any. *)
Definition OpenSourceProperties (h : Host) (item : option SourceItem) : source_ptr :=
  match item with
  | None => None
  | Some item => Item.GetSource h item
  end.

(** The states the dock can be in: it is constructed, and then any handler
    may run, against the host as it is by then; a timer fires only while it
    is active, a queued start runs only if one is queued, the host signals
    only while the dock is connected, and the user picks an item that a box
    has. *)
Inductive Reachable (fe : Frontend) : State -> Prop :=
| Reachable_new :
    Reachable fe new
| Reachable_Initialize d :
    Reachable fe d -> Reachable fe (Initialize fe d)
| Reachable_Cleanup d :
    Reachable fe d -> Reachable fe (Cleanup d)
| Reachable_showEvent h d :
    Reachable fe d -> Reachable fe (showEvent h fe d)
| Reachable_signal d :
    Reachable fe d -> signalsConnected d = true -> Reachable fe (OnSourceSignal d)
| Reachable_queued_start d :
    Reachable fe d -> 0 < refreshStartQueued d -> Reachable fe (run_queued_start d)
| Reachable_refresh h d :
    Reachable fe d -> refreshTimer d = true -> Reachable fe (refreshTimer_timeout h fe d)
| Reachable_text text d :
    Reachable fe d -> Reachable fe (OnSearchTextChanged text d)
| Reachable_search h d :
    Reachable fe d -> searchTimer d = true -> Reachable fe (searchTimer_timeout h fe d)
| Reachable_scope h index d :
    Reachable fe d ->
    (0 <= index < Z.of_nat (length (Qt.combo_items (searchScope fe))))%Z ->
    Reachable fe (OnSearchScopeChanged h fe index d)
| Reachable_type h index d :
    Reachable fe d ->
    (0 <= index < Z.of_nat (length (Qt.combo_items (typeFilter d))))%Z ->
    Reachable fe (type_picked h fe index d).

(** The collection holds nothing. *)
Definition no_records (c : SourceCollection) : Prop :=
  sources c = [] /\ sourcesByUUID c = ∅ /\ discoveredTypes c = ∅.

(** Nothing has been loaded: no record, no row, no type in the type box,
    no refresh under way. *)
Definition nothing_loaded (d : State) : Prop :=
  no_records (sourceCollection d) /\ resultsList d = []
  /\ Qt.combo_items (typeFilter d) = []
  /\ refreshTimer d = false /\ refreshStartQueued d = 0.

(** A host without objects. *)
Definition empty_host : Host :=
  {| objects := []; all_sources := []; frontend_scenes := []; display_names := ∅ |}.

End SearchDock.

(** ** The dock over the example project *)

Module DockExample.

(** A frontend that answers every locale lookup with the key. *)
Definition plain : SearchDock.Frontend :=
  {| SearchDock.obs_module_text := fun key => key;
     SearchDock.obs_get_signal_handler := true |}.

(** The dock after construction and [Initialize], not shown yet. *)
Definition hidden : SearchDock.State := SearchDock.Initialize plain SearchDock.new.

(** The dock once shown over the example project. *)
Definition shown : SearchDock.State := SearchDock.showEvent Example.studio plain hidden.

(** A dock whose type filter is "dshow_input". *)
Definition filtering : SearchDock.State :=
  {| SearchDock.sourceCollection := Example.snapshot;
     SearchDock.typeFilter := Qt.empty_combo;
     SearchDock.resultsList := [];
     SearchDock.statusLabel := "";
     SearchDock.currentSearchText := "";
     SearchDock.currentSearchScope := "sources";
     SearchDock.currentTypeFilter := "dshow_input";
     SearchDock.searchTimer := false;
     SearchDock.refreshTimer := false;
     SearchDock.refreshStartQueued := 0;
     SearchDock.signalsConnected := true;
     SearchDock.initialized := true |}.

Definition cam_row : string * SourceItem :=
  ("Cam1 [Video Capture Device] in: Main, Vertical", Example.cam_record).

End DockExample.

(** * Properties *)

(** ** Strings: ordering and substring search *)

Section StringOrder.

Lemma ltb_asym (a b : string) : String.ltb a b = true -> String.ltb b a = false.
Proof.
  unfold String.ltb. rewrite (String.compare_antisym b a).
  destruct (String.compare a b); simpl; congruence.
Qed.

Lemma compare_not_gt_trans (a b c : string) :
  String.compare a b <> Gt -> String.compare b c <> Gt -> String.compare a c <> Gt.
Proof.
  revert b c. induction a as [|x a IH]; intros [|y b] [|z c]; simpl; try congruence.
  unfold Ascii.compare.
  destruct (N.compare_spec (N_of_ascii x) (N_of_ascii y));
    destruct (N.compare_spec (N_of_ascii y) (N_of_ascii z));
    destruct (N.compare_spec (N_of_ascii x) (N_of_ascii z));
    try congruence; try lia; eauto.
Qed.

Lemma not_after_compare (a b : string) : not_after a b <-> String.compare a b <> Gt.
Proof.
  unfold not_after, String.ltb. rewrite (String.compare_antisym a b).
  destruct (String.compare b a); simpl; split; congruence.
Qed.

Lemma not_after_trans (a b c : string) : not_after a b -> not_after b c -> not_after a c.
Proof. rewrite !not_after_compare. apply compare_not_gt_trans. Qed.

End StringOrder.

Section SortFacts.
Context {A : Type} (comp : A -> A -> bool).
Hypothesis comp_asym : forall a b, comp a b = true -> comp b a = false.

Local Abbreviation ord := (in_order comp).

Lemma sort_insert_perm (x : A) (l : list A) : Permutation (x :: l) (sort_insert comp x l).
Proof.
  induction l as [|y l IH]; simpl; [reflexivity|].
  destruct (comp y x); [|reflexivity].
  rewrite perm_swap. now constructor.
Qed.

Lemma std_sort_perm (l : list A) : Permutation l (std_sort comp l).
Proof.
  induction l as [|x l IH]; simpl; [constructor|].
  rewrite <- sort_insert_perm. now constructor.
Qed.

Lemma sort_insert_hd (x y : A) (l : list A) :
  comp y x = true -> HdRel ord y l -> HdRel ord y (sort_insert comp x l).
Proof.
  intros Hyx Hl. destruct l as [|z l]; simpl.
  - constructor. now apply comp_asym.
  - inversion Hl; subst. destruct (comp z x); constructor; auto.
    now apply comp_asym.
Qed.

Lemma sort_insert_sorted (x : A) (l : list A) :
  Sorted ord l -> Sorted ord (sort_insert comp x l).
Proof.
  induction 1 as [|y l Hs IH Hhd]; simpl.
  - repeat constructor.
  - destruct (comp y x) eqn:E.
    + constructor; [exact IH|]. now apply sort_insert_hd.
    + constructor; [now constructor|]. constructor. exact E.
Qed.

Lemma std_sort_sorted (l : list A) : Sorted ord (std_sort comp l).
Proof.
  induction l as [|x l IH]; simpl; [constructor|]. now apply sort_insert_sorted.
Qed.

End SortFacts.

Section Substring.

Local Abbreviation ci := same_letter.

Lemma match_here_ci (hay needle : string) :
  match_here ci hay needle = true <->
  exists mid post, hay = mid +:+ post /\ lower mid = lower needle.
Proof.
  revert hay. induction needle as [|b needle IH]; intros hay; simpl.
  - split; [|reflexivity]. intros _. exists "", hay. split; reflexivity.
  - destruct hay as [|a hay].
    + split; [discriminate|]. intros (mid & post & Hh & Hl).
      destruct mid; simpl in *; discriminate.
    + rewrite andb_true_iff, IH. unfold ci. rewrite Ascii.eqb_eq. split.
      * intros (Hab & mid & post & -> & Hl). exists (String a mid), post.
        simpl. now rewrite Hab, Hl.
      * intros (mid & post & Hh & Hl). destruct mid as [|a' mid]; simpl in *;
          [discriminate|]. injection Hh as <- ->. injection Hl as Hab Hl. eauto.
Qed.

Lemma std_search_bound (p : ascii -> ascii -> bool) (hay needle : string) :
  std_search p hay needle <= String.length hay.
Proof.
  induction hay as [|a hay IH]; simpl; destruct (match_here p _ needle); simpl; lia.
Qed.

Lemma std_search_found (p : ascii -> ascii -> bool) (hay needle : string) :
  needle <> "" ->
  (std_search p hay needle =? String.length hay) = false <->
  exists pre rest, hay = pre +:+ rest /\ match_here p rest needle = true.
Proof.
  intros Hne. rewrite Nat.eqb_neq. induction hay as [|a hay IH].
  - simpl. destruct needle; [congruence|]. simpl. split; [congruence|].
    intros (pre & rest & Hh & Hm). destruct pre, rest; simpl in *; discriminate.
  - cbn [std_search]. destruct (match_here p (String a hay) needle) eqn:E.
    + simpl. split; [|lia]. intros _. exists "", (String a hay). split; [reflexivity|exact E].
    + cbn [String.length]. split.
      * intros Hs. destruct IH as [IH _].
        destruct IH as (pre & rest & -> & Hm); [lia|].
        exists (String a pre), rest. split; [reflexivity|exact Hm].
      * intros (pre & rest & Hh & Hm). destruct pre as [|a' pre].
        -- change ("" +:+ rest) with rest in Hh. rewrite <- Hh in Hm. congruence.
        -- change (String a' pre +:+ rest) with (String a' (pre +:+ rest)) in Hh.
           injection Hh as <- ->. destruct IH as [_ IH].
           assert (std_search p (pre +:+ rest) needle <> String.length (pre +:+ rest))
             by (apply IH; eauto). lia.
Qed.

Lemma lower_empty (s : string) : lower s = "" -> s = "".
Proof. destruct s; simpl; congruence. Qed.

Lemma ContainsCaseInsensitive_spec (haystack needle : string) :
  ContainsCaseInsensitive haystack needle = true <-> contains_ci haystack needle.
Proof.
  unfold ContainsCaseInsensitive, contains_ci.
  destruct needle as [|b needle].
  { split; [|reflexivity]. intros _. exists "", "", haystack. split; reflexivity. }
  destruct haystack as [|a haystack].
  { split; [discriminate|]. intros (pre & mid & post & Hh & Hl).
    destruct pre; [|discriminate]. destruct mid; simpl in *; discriminate. }
  rewrite negb_true_iff, std_search_found by discriminate. split.
  - intros (pre & rest & -> & Hm). apply match_here_ci in Hm.
    destruct Hm as (mid & post & -> & Hl). eauto.
  - intros (pre & mid & post & -> & Hl). exists pre, (mid +:+ post). split; [reflexivity|].
    apply match_here_ci. eauto.
Qed.

Lemma ContainsCaseInsensitive_lower (haystack n1 n2 : string) :
  lower n1 = lower n2 ->
  ContainsCaseInsensitive haystack n1 = ContainsCaseInsensitive haystack n2.
Proof.
  intros Hl. apply eq_true_iff_eq. rewrite !ContainsCaseInsensitive_spec.
  unfold contains_ci. now rewrite Hl.
Qed.

End Substring.

(** ** The query engine *)

Section Query.
Variable h : Host.

Local Abbreviation by_name := (by_name h).

Lemma Search_unfold (c : SourceCollection) (searchText typeFilter : string) :
  Collection.Search h c searchText typeFilter
  = std_sort by_name (survivors h c searchText typeFilter).
Proof. reflexivity. Qed.

Lemma Search_perm (c : SourceCollection) (searchText typeFilter : string) :
  Permutation (survivors h c searchText typeFilter)
              (Collection.Search h c searchText typeFilter).
Proof. rewrite Search_unfold. apply std_sort_perm. Qed.

Lemma Search_In (c : SourceCollection) (searchText typeFilter : string) (it : SourceItem) :
  In it (Collection.Search h c searchText typeFilter) <->
  In it (sources c) /\ Item.IsValid h it = true
  /\ Item.MatchesType it typeFilter = true /\ Item.MatchesSearch h it searchText = true.
Proof.
  split.
  - intros Hin. apply (Permutation_in _ (Permutation_sym (Search_perm _ _ _))) in Hin.
    unfold survivors in Hin. apply filter_In in Hin. destruct Hin as [Hin Hb].
    apply andb_true_iff in Hb. destruct Hb as [Hb Hs].
    apply andb_true_iff in Hb. tauto.
  - intros (Hin & Hv & Ht & Hs). apply (Permutation_in _ (Search_perm _ _ _)).
    unfold survivors. apply filter_In. split; [exact Hin|]. now rewrite Hv, Ht, Hs.
Qed.

Lemma no_descent_of_sorted (key : SourceItem -> string) (l : list SourceItem) :
  Sorted (fun a b => not_after (key a) (key b)) l -> no_descent key l = true.
Proof.
  induction 1 as [|a l Hs IH Hhd]; [reflexivity|].
  destruct l as [|b l]; [reflexivity|].
  change (no_descent key (a :: b :: l))
    with (negb (String.ltb (key b) (key a)) && no_descent key (b :: l)).
  inversion Hhd as [|? ? Hab]; subst. unfold not_after in Hab. now rewrite Hab, IH.
Qed.

(** C2 (as amended): [Search] returns the surviving records rearranged so
    that their names as [GetName] gives them (the raw name, without the
    "(H) "/"(V) " canvas annotation) never decrease in the byte-wise order
    of [std::string]. *)
Theorem Search_ordered_by_raw_name (c : SourceCollection) (searchText typeFilter : string) :
  ordered_by (Item.GetName h) (Collection.Search h c searchText typeFilter)
  /\ Permutation (survivors h c searchText typeFilter)
                 (Collection.Search h c searchText typeFilter).
Proof.
  split; [|apply Search_perm].
  rewrite Search_unfold. unfold ordered_by. apply Sorted_StronglySorted.
  - intros x y z. apply not_after_trans.
  - apply (std_sort_sorted by_name). intros a b. apply ltb_asym.
Qed.

(** C8: [Search] is a total function, and every record it returns still
    resolves in the host as it is at the time of the query: a record whose
    object has been destroyed since the snapshot is left out. *)
Theorem Search_drops_stale_records (c : SourceCollection) (searchText typeFilter : string)
    (it : SourceItem) :
  Item.IsValid h it = false ->
  ~ In it (Collection.Search h c searchText typeFilter).
Proof. intros Hstale Hin. apply Search_In in Hin. destruct Hin as (_ & Hv & _). congruence. Qed.

Lemma MatchesSearch_spec (it : SourceItem) (searchText : string) :
  Item.MatchesSearch h it searchText = true <->
  searchText = "" \/ contains_ci (Item.GetName h it) searchText.
Proof.
  unfold Item.MatchesSearch. destruct searchText as [|a s].
  - split; auto.
  - rewrite <- ContainsCaseInsensitive_spec.
    destruct (ContainsCaseInsensitive _ _); split; auto.
    intros [?|?]; congruence.
Qed.

Lemma MatchesSearch_lower (it : SourceItem) (s1 s2 : string) :
  lower s1 = lower s2 -> Item.MatchesSearch h it s1 = Item.MatchesSearch h it s2.
Proof.
  intros Hl. unfold Item.MatchesSearch.
  rewrite (ContainsCaseInsensitive_lower _ _ _ Hl).
  destruct s1, s2; try reflexivity; simpl in Hl; discriminate.
Qed.

Lemma GetName_weakSource (it it' : SourceItem) :
  weakSource it' = weakSource it -> Item.GetName h it' = Item.GetName h it.
Proof. intros Hw. unfold Item.GetName, Item.GetSource. now rewrite Hw. Qed.

(** C6 (as amended): a record passes the text filter exactly when the
    search text is empty or occurs, up to the case of letters, in the
    record's raw name ([GetName], without the canvas annotation of the
    display name); the answer depends on no other field of the record
    (type tag, parent names), and two search texts that differ only in the
    case of letters give the same result list. *)
Theorem text_filter_on_raw_name (it : SourceItem) (searchText : string) :
  (Item.MatchesSearch h it searchText = true <->
   searchText = "" \/ contains_ci (Item.GetName h it) searchText)
  /\ (forall it', weakSource it' = weakSource it ->
                  Item.MatchesSearch h it' searchText = Item.MatchesSearch h it searchText)
  /\ (forall c typeFilter searchText',
        lower searchText' = lower searchText ->
        Collection.Search h c searchText' typeFilter
        = Collection.Search h c searchText typeFilter).
Proof.
  split; [apply MatchesSearch_spec|]. split.
  - intros it' Hw. unfold Item.MatchesSearch. now rewrite (GetName_weakSource _ _ Hw).
  - intros c typeFilter searchText' Hl. unfold Collection.Search. f_equal.
    apply filter_ext. intros x. now rewrite (MatchesSearch_lower x _ _ Hl).
Qed.

End Query.

(** ** The snapshot builder: one pass *)

Section Pass.
Variable h : Host.

Lemma new_live (p : nat) (o : obs_source) :
  objects h !! p = Some o ->
  Item.new h (Some p)
  = {| weakSource := Some p; sourceClass := class_of o; parentScenes := [];
       parentSourceName := "";
       cachedTypeId := match info_id o with Some typeId => typeId | None => "" end |}.
Proof. intros Ho. unfold Item.new, deref. now rewrite Ho. Qed.

Lemma GetSource_live (it : SourceItem) (p : nat) (o : obs_source) :
  weakSource it = Some p -> objects h !! p = Some o -> alive o = true ->
  Item.GetSource h it = Some p.
Proof.
  intros Hw Ho Ha. unfold Item.GetSource, obs_weak_source_get_source.
  now rewrite Hw, Ho, Ha.
Qed.

Lemma IsValid_new (p : nat) (o : obs_source) :
  objects h !! p = Some o -> Item.IsValid h (Item.new h (Some p)) = alive o.
Proof.
  intros Ho. rewrite (new_live _ _ Ho).
  unfold Item.IsValid, Item.GetSource, obs_weak_source_get_source. simpl.
  rewrite Ho. now destruct (alive o).
Qed.

Lemma reported_uuid_live (it : SourceItem) (p : nat) (o : obs_source) :
  weakSource it = Some p -> objects h !! p = Some o -> alive o = true ->
  reported_uuid h it = context_uuid o.
Proof.
  intros Hw Ho Ha. unfold reported_uuid. rewrite (GetSource_live _ _ _ Hw Ho Ha).
  unfold obs_source_get_uuid, deref. now rewrite Ho.
Qed.

Lemma GetName_live (it : SourceItem) (p : nat) (o : obs_source) (name : string) :
  weakSource it = Some p -> objects h !! p = Some o -> alive o = true ->
  context_name o = Some name -> Item.GetName h it = name.
Proof.
  intros Hw Ho Ha Hn. unfold Item.GetName. rewrite (GetSource_live _ _ _ Hw Ho Ha).
  unfold obs_source_get_name, deref. now rewrite Ho, Hn.
Qed.

Lemma length_zero_eqb (s : string) : (String.length s =? 0) = false <-> s <> "".
Proof. destruct s; simpl; split; congruence. Qed.

(** *** What [AddSource] and [AddFilter] do *)

Lemma AddSource_cases (source : source_ptr) (c : SourceCollection) :
  Collection.AddSource h source c = c \/
  exists p o name typeId,
    source = Some p /\ objects h !! p = Some o
    /\ info_type o <> OBS_SOURCE_TYPE_FILTER
    /\ context_name o = Some name /\ name <> "" /\ info_id o = Some typeId
    /\ Collection.uuid_recorded (context_uuid o) c = false /\ alive o = true
    /\ Collection.AddSource h source c
       = Collection.add_to_collections h typeId (context_uuid o)
           (Item.new h (Some p)) c.
Proof.
  unfold Collection.AddSource. destruct source as [p|]; cbn [deref]; [|now left].
  destruct (objects h !! p) as [o|] eqn:Ho; [|now left].
  destruct (obs_source_type_eqb (info_type o) OBS_SOURCE_TYPE_FILTER) eqn:Hf;
    cbn [orb]; [now left|].
  destruct (obs_source_type_eqb (info_type o) OBS_SOURCE_TYPE_TRANSITION); [now left|].
  destruct (context_name o) as [name|] eqn:Hn; [|now left].
  destruct (String.length name =? 0) eqn:Hlen; [now left|].
  destruct (info_id o) as [typeId|] eqn:Hid; [|now left].
  destruct (String.eqb typeId "audio_monitor"); [now left|].
  destruct (strstr_found typeId "_wrapper_"); [now left|].
  destruct (strstr_found name "(Stinger)"); [now left|].
  destruct (String.eqb typeId "audio_line"); [now left|].
  destruct (Collection.uuid_recorded (context_uuid o) c) eqn:Hrec; [now left|].
  rewrite (IsValid_new _ _ Ho). destruct (alive o) eqn:Ha; cbn [negb]; [|now left].
  right. exists p, o, name, typeId. repeat split; try assumption.
  - intros Heq. rewrite Heq in Hf. discriminate.
  - now apply length_zero_eqb.
Qed.

Lemma AddFilter_accepts (filter : source_ptr) (parentName : string)
    (c : SourceCollection) (o : obs_source) (name typeId : string) :
  deref h filter = Some o ->
  context_name o = Some name -> name <> "" ->
  info_id o = Some typeId -> typeId <> "audio_monitor" ->
  Collection.uuid_recorded (context_uuid o) c = false -> alive o = true ->
  Collection.AddFilter h filter parentName c
  = Collection.add_to_collections h typeId (context_uuid o)
      (Item.SetParentSourceName parentName (Item.new h filter)) c.
Proof.
  intros Ho Hn Hne Hid Ham Hrec Ha. unfold Collection.AddFilter.
  rewrite Ho, Hn, Hid, Hrec. apply length_zero_eqb in Hne. rewrite Hne.
  apply String.eqb_neq in Ham. rewrite Ham.
  destruct filter as [p|]; [|discriminate]. simpl in Ho.
  now rewrite (IsValid_new _ _ Ho), Ha.
Qed.

Lemma AddFilter_rejects (filter : source_ptr) (parentName : string)
    (c : SourceCollection) :
  (deref h filter = None \/
   exists o, deref h filter = Some o /\
     (context_name o = None \/ context_name o = Some "" \/ info_id o = None
      \/ info_id o = Some "audio_monitor"
      \/ Collection.uuid_recorded (context_uuid o) c = true \/ alive o = false)) ->
  Collection.AddFilter h filter parentName c = c.
Proof.
  unfold Collection.AddFilter. intros [Hd|(o & Hd & Hr)]; rewrite Hd; [reflexivity|].
  destruct (context_name o) as [name|]; [|reflexivity].
  destruct (String.length name =? 0) eqn:Hlen; [reflexivity|].
  destruct (info_id o) as [typeId|]; [|reflexivity].
  destruct (String.eqb typeId "audio_monitor") eqn:Ham; [reflexivity|].
  destruct (Collection.uuid_recorded (context_uuid o) c); [reflexivity|].
  destruct filter as [p|]; [|discriminate]. simpl in Hd.
  rewrite (IsValid_new _ _ Hd). destruct (alive o); cbn [negb].
  - exfalso. destruct Hr as [?|[Hr|[?|[Hr|[?|?]]]]]; try discriminate.
    + injection Hr as ->. discriminate.
    + injection Hr as ->. discriminate.
  - reflexivity.
Qed.

Lemma AddFilter_cases (filter : source_ptr) (parentName : string) (c : SourceCollection) :
  Collection.AddFilter h filter parentName c = c \/
  exists p o name typeId,
    filter = Some p /\ objects h !! p = Some o
    /\ context_name o = Some name /\ name <> "" /\ info_id o = Some typeId
    /\ Collection.uuid_recorded (context_uuid o) c = false /\ alive o = true
    /\ Collection.AddFilter h filter parentName c
       = Collection.add_to_collections h typeId (context_uuid o)
           (Item.SetParentSourceName parentName (Item.new h (Some p))) c.
Proof.
  destruct filter as [p|]; [|left; apply AddFilter_rejects; now left].
  destruct (objects h !! p) as [o|] eqn:Ho; [|left; apply AddFilter_rejects; now left].
  destruct (context_name o) as [name|] eqn:Hn;
    [|left; apply AddFilter_rejects; right; exists o; auto].
  destruct (String.eqb_spec name "") as [->|Hne];
    [left; apply AddFilter_rejects; right; exists o; auto|].
  destruct (info_id o) as [typeId|] eqn:Hid;
    [|left; apply AddFilter_rejects; right; exists o; auto 6].
  destruct (String.eqb_spec typeId "audio_monitor") as [->|Ham];
    [left; apply AddFilter_rejects; right; exists o; auto 7|].
  destruct (Collection.uuid_recorded (context_uuid o) c) eqn:Hrec;
    [left; apply AddFilter_rejects; right; exists o; auto 8|].
  destruct (alive o) eqn:Ha;
    [|left; apply AddFilter_rejects; right; exists o; auto 9].
  right. exists p, o, name, typeId. repeat split; try assumption.
  now apply AddFilter_accepts with (o := o) (name := name).
Qed.

(** *** The invariant of a pass *)

Lemma fold_left_preserves {A B : Type} (P : A -> Prop) (Q : B -> Prop)
    (f : A -> B -> A) (l : list B) (a : A) :
  (forall a b, P a -> Q b -> P (f a b)) -> Forall Q l -> P a -> P (fold_left f l a).
Proof.
  intros Hstep Hl. revert a. induction Hl as [|b l Hb _ IH]; intros a Ha; simpl; auto.
Qed.

Lemma Inv_Clear (c : SourceCollection) : Inv h (Collection.Clear c).
Proof. split; simpl; intros *; try rewrite lookup_empty; discriminate. Qed.

Lemma Inv_add (c : SourceCollection) (typeId : string) (item : SourceItem)
    (p : nat) (o : obs_source) :
  Inv h c ->
  weakSource item = Some p -> objects h !! p = Some o -> alive o = true ->
  sourceClass item = class_of o ->
  Collection.uuid_recorded (context_uuid o) c = false ->
  Inv h (Collection.add_to_collections h typeId (context_uuid o) item c).
Proof.
  intros [Hlook Hrec Hlive] Hw Ho Ha Hcl Hfresh.
  pose proof (reported_uuid_live _ _ _ Hw Ho Ha) as Hu.
  split; cbn [sources sourcesByUUID Collection.add_to_collections].
  - intros u i Hi. destruct (context_uuid o) as [u'|] eqn:Hcu.
    + destruct (decide (u' = u)) as [->|Hne].
      * rewrite lookup_insert_eq in Hi. injection Hi as <-. exists item. split; [|exact Hu].
        now apply list_lookup_middle.
      * rewrite lookup_insert_ne in Hi by exact Hne.
        destruct (Hlook _ _ Hi) as (it & Hit & Hitu). exists it. split; [|exact Hitu].
        now apply lookup_app_l_Some.
    + destruct (Hlook _ _ Hi) as (it & Hit & Hitu). exists it. split; [|exact Hitu].
      now apply lookup_app_l_Some.
  - intros i it u Hit Hitu. apply lookup_snoc_Some in Hit.
    destruct Hit as [[_ Hit]|[-> <-]].
    + pose proof (Hrec _ _ _ Hit Hitu) as Hm.
      destruct (context_uuid o) as [u'|] eqn:Hcu; [|exact Hm].
      destruct (decide (u' = u)) as [->|Hne].
      * unfold Collection.uuid_recorded in Hfresh. rewrite Hm in Hfresh. discriminate.
      * now rewrite lookup_insert_ne.
    + rewrite Hu in Hitu. rewrite Hitu. apply lookup_insert_eq.
  - intros i it Hit. apply lookup_snoc_Some in Hit.
    destruct Hit as [[_ Hit]|[_ <-]]; [eauto|]. exists p, o. auto.
Qed.

Lemma AddParentScene_frame (sceneName : string) (it : SourceItem) :
  weakSource (Item.AddParentScene sceneName it) = weakSource it
  /\ sourceClass (Item.AddParentScene sceneName it) = sourceClass it
  /\ parentSourceName (Item.AddParentScene sceneName it) = parentSourceName it
  /\ cachedTypeId (Item.AddParentScene sceneName it) = cachedTypeId it.
Proof. now repeat split. Qed.

Lemma reported_uuid_weakSource (it it' : SourceItem) :
  weakSource it' = weakSource it -> reported_uuid h it' = reported_uuid h it.
Proof. intros Hw. unfold reported_uuid, Item.GetSource. now rewrite Hw. Qed.

Lemma Inv_update (c : SourceCollection) (i : nat) (sceneName : string) :
  Inv h c -> Inv h (Collection.update_item i (Item.AddParentScene sceneName) c).
Proof.
  intros [Hlook Hrec Hlive].
  assert (Hback : forall j it',
             alter (Item.AddParentScene sceneName) i (sources c) !! j = Some it' ->
             exists it, sources c !! j = Some it /\ weakSource it' = weakSource it
                        /\ sourceClass it' = sourceClass it).
  { intros j it' Hj. rewrite list_lookup_alter in Hj. case_decide; [subst j|eauto].
    destruct (sources c !! i) as [it|]; [|discriminate]. injection Hj as <-. eauto. }
  split; cbn [sources sourcesByUUID Collection.update_item].
  - intros u j Hj. destruct (Hlook _ _ Hj) as (it & Hit & Hitu).
    rewrite list_lookup_alter. case_decide; [subst j|eauto].
    rewrite Hit. eexists. split; [reflexivity|]. exact Hitu.
  - intros j it' u Hj Hu. destruct (Hback _ _ Hj) as (it & Hit & Hw & _).
    rewrite (reported_uuid_weakSource _ _ Hw) in Hu. eauto.
  - intros j it' Hj. destruct (Hback _ _ Hj) as (it & Hit & Hw & Hc).
    destruct (Hlive _ _ Hit) as (p & o & ? & ? & ? & ?). exists p, o.
    rewrite Hw, Hc. auto.
Qed.

Lemma link_scene_item_cases (sceneName : string) (c : SourceCollection)
    (itemSource : source_ptr) :
  Collection.link_scene_item h sceneName c itemSource = c \/
  exists u i,
    obs_source_get_uuid h itemSource = Some u /\ sourcesByUUID c !! u = Some i
    /\ Collection.link_scene_item h sceneName c itemSource
       = Collection.update_item i (Item.AddParentScene sceneName) c.
Proof.
  unfold Collection.link_scene_item, obs_source_get_uuid.
  destruct (deref h itemSource) as [o|]; [|now left].
  destruct (context_uuid o) as [u|]; [|now left].
  destruct (sourcesByUUID c !! u) as [i|] eqn:Hi; [|now left].
  right. eauto.
Qed.

Lemma InPass_Inv (c : SourceCollection) : InPass h c -> Inv h c.
Proof.
  induction 1 as [c|c source _ IH|c filter parentName _ IH|c sceneName itemSource _ IH].
  - apply Inv_Clear.
  - destruct (AddSource_cases source c) as [->|(p & o & name & typeId & -> & Ho & _ & _
      & _ & _ & Hfresh & Ha & ->)]; [exact IH|].
    apply Inv_add with (p := p); auto; now rewrite (new_live _ _ Ho).
  - destruct (AddFilter_cases filter parentName c) as [->|(p & o & name & typeId & -> & Ho
      & _ & _ & _ & Hfresh & Ha & ->)]; [exact IH|].
    apply Inv_add with (p := p); auto; now rewrite (new_live _ _ Ho).
  - destruct (link_scene_item_cases sceneName c itemSource) as [->|(u & i & _ & _ & ->)];
      [exact IH|]. now apply Inv_update.
Qed.

Lemma InPass_EnumAllSources (c : SourceCollection) :
  InPass h c -> InPass h (Collection.EnumAllSources h c).
Proof.
  intros Hc. unfold Collection.EnumAllSources.
  apply (fold_left_preserves (InPass h) (fun _ => True)); auto.
  - intros. now constructor.
  - now apply Forall_forall.
Qed.

Lemma InPass_LinkFilters_item (c : SourceCollection) (item : SourceItem) :
  InPass h c -> InPass h (Collection.LinkFilters_item h c item).
Proof.
  intros Hc. unfold Collection.LinkFilters_item.
  destruct (Item.GetSource h item) as [p|]; [|exact Hc].
  destruct (deref h (Some p)) as [o|]; [|exact Hc].
  apply (fold_left_preserves (InPass h) (fun _ => True)); auto.
  - intros. now constructor.
  - now apply Forall_forall.
Qed.

Lemma InPass_LinkFilters (c : SourceCollection) :
  InPass h c -> InPass h (Collection.LinkFilters h c).
Proof.
  intros Hc. unfold Collection.LinkFilters.
  apply (fold_left_preserves (InPass h) (fun _ => True)); auto.
  - intros. now apply InPass_LinkFilters_item.
  - now apply Forall_forall.
Qed.

Lemma InPass_LinkSceneItems_at (c : SourceCollection) (i : nat) :
  InPass h c -> InPass h (Collection.LinkSceneItems_at h c i).
Proof.
  intros Hc. unfold Collection.LinkSceneItems_at.
  destruct (sources c !! i) as [item|]; [|exact Hc].
  destruct (negb (Item.IsScene item) && negb (Item.IsGroup item)); [exact Hc|].
  destruct (Item.GetSource h item) as [p|]; [|exact Hc].
  destruct (deref h (Some p)) as [o|]; [|exact Hc].
  destruct (scene_items o) as [items|]; [|exact Hc].
  apply (fold_left_preserves (InPass h) (fun _ => True)); auto.
  - intros. now constructor.
  - now apply Forall_forall.
Qed.

Lemma InPass_LinkSceneItems (c : SourceCollection) :
  InPass h c -> InPass h (Collection.LinkSceneItems h c).
Proof.
  intros Hc. unfold Collection.LinkSceneItems.
  apply (fold_left_preserves (InPass h) (fun _ => True)); auto.
  - intros. now apply InPass_LinkSceneItems_at.
  - now apply Forall_forall.
Qed.

Lemma InPass_Refresh (c : SourceCollection) : InPass h (Collection.Refresh h c).
Proof.
  unfold Collection.Refresh.
  apply InPass_LinkSceneItems, InPass_LinkFilters, InPass_EnumAllSources. constructor.
Qed.

Lemma Inv_unique (c : SourceCollection) (i j : nat) (it1 it2 : SourceItem) (u : string) :
  Inv h c -> sources c !! i = Some it1 -> sources c !! j = Some it2 ->
  reported_uuid h it1 = Some u -> reported_uuid h it2 = Some u -> i = j.
Proof.
  intros [_ Hrec _] H1 H2 Hu1 Hu2.
  pose proof (Hrec _ _ _ H1 Hu1) as E1. pose proof (Hrec _ _ _ H2 Hu2) as E2. congruence.
Qed.

End Pass.

(** ** Properties kept by every record through the phases of [Refresh] *)

Section Phases.
Variable h : Host.
Variable P : SourceItem -> Prop.

Lemma AddSource_Forall (source : source_ptr) (c : SourceCollection) :
  Forall P (sources c) ->
  (forall p o name,
      objects h !! p = Some o -> info_type o <> OBS_SOURCE_TYPE_FILTER ->
      context_name o = Some name -> name <> "" -> alive o = true ->
      P (Item.new h (Some p))) ->
  Forall P (sources (Collection.AddSource h source c)).
Proof.
  intros Hc Hnew.
  destruct (AddSource_cases h source c) as [->|(p & o & name & typeId & -> & Ho & Hty
    & Hn & Hne & _ & _ & Ha & ->)]; [exact Hc|].
  cbn [sources Collection.add_to_collections]. apply Forall_app. split; [exact Hc|].
  constructor; [|constructor]. eapply Hnew; eauto.
Qed.

Lemma EnumAllSources_Forall (c : SourceCollection) :
  Forall P (sources c) ->
  (forall p o name,
      objects h !! p = Some o -> info_type o <> OBS_SOURCE_TYPE_FILTER ->
      context_name o = Some name -> name <> "" -> alive o = true ->
      P (Item.new h (Some p))) ->
  Forall P (sources (Collection.EnumAllSources h c)).
Proof.
  intros Hc Hnew. unfold Collection.EnumAllSources.
  apply (fold_left_preserves (fun c => Forall P (sources c)) (fun _ => True)); auto.
  - intros. now apply AddSource_Forall.
  - now apply Forall_forall.
Qed.

Lemma AddFilter_Forall (filter : source_ptr) (parentName : string) (c : SourceCollection) :
  Forall P (sources c) ->
  (forall p o,
      filter = Some p -> objects h !! p = Some o -> alive o = true ->
      P (Item.SetParentSourceName parentName (Item.new h (Some p)))) ->
  Forall P (sources (Collection.AddFilter h filter parentName c)).
Proof.
  intros Hc Hnew.
  destruct (AddFilter_cases h filter parentName c) as [->|(p & o & name & typeId & -> & Ho
    & _ & _ & _ & _ & Ha & ->)]; [exact Hc|].
  cbn [sources Collection.add_to_collections]. apply Forall_app. split; [exact Hc|].
  constructor; [|constructor]. eapply Hnew; eauto.
Qed.

Lemma LinkFilters_Forall (c : SourceCollection) :
  Forall P (sources c) ->
  (forall parent p o fp fo,
      In parent (sources c) -> Item.GetSource h parent = Some p ->
      objects h !! p = Some o -> In (Some fp) (filters o) ->
      objects h !! fp = Some fo -> alive fo = true ->
      P (Item.SetParentSourceName (Item.GetName h parent) (Item.new h (Some fp)))) ->
  Forall P (sources (Collection.LinkFilters h c)).
Proof.
  intros Hc Hnew. unfold Collection.LinkFilters.
  apply (fold_left_preserves (fun c' => Forall P (sources c'))
           (fun item => In item (sources c))); auto.
  - intros c' parent Hc' Hin. unfold Collection.LinkFilters_item.
    destruct (Item.GetSource h parent) as [p|] eqn:Hp; [|exact Hc'].
    cbn [deref]. destruct (objects h !! p) as [o|] eqn:Ho; [|exact Hc'].
    apply (fold_left_preserves (fun c' => Forall P (sources c'))
             (fun f => In f (filters o))); auto.
    + intros c'' f Hc'' Hf. apply AddFilter_Forall; [exact Hc''|].
      intros fp fo -> Hfo Ha. eapply Hnew; eauto.
    + apply List.Forall_forall. auto.
  - apply List.Forall_forall. auto.
Qed.

Hypothesis P_AddParentScene : forall sceneName it, P it -> P (Item.AddParentScene sceneName it).

Lemma link_scene_item_Forall (sceneName : string) (c : SourceCollection)
    (itemSource : source_ptr) :
  Forall P (sources c) ->
  Forall P (sources (Collection.link_scene_item h sceneName c itemSource)).
Proof.
  intros Hc.
  destruct (link_scene_item_cases h sceneName c itemSource) as [->|(u & i & _ & _ & ->)];
    [exact Hc|].
  cbn [sources Collection.update_item]. apply Forall_alter; [exact Hc|].
  intros it _. apply P_AddParentScene.
Qed.

Lemma LinkSceneItems_Forall (c : SourceCollection) :
  Forall P (sources c) -> Forall P (sources (Collection.LinkSceneItems h c)).
Proof.
  intros Hc. unfold Collection.LinkSceneItems.
  apply (fold_left_preserves (fun c => Forall P (sources c)) (fun _ => True)); auto;
    [|now apply Forall_forall].
  intros c' i Hc' _. unfold Collection.LinkSceneItems_at.
  destruct (sources c' !! i) as [item|]; [|exact Hc'].
  destruct (negb (Item.IsScene item) && negb (Item.IsGroup item)); [exact Hc'|].
  destruct (Item.GetSource h item) as [p|]; [|exact Hc'].
  destruct (deref h (Some p)) as [o|]; [|exact Hc'].
  destruct (scene_items o) as [items|]; [|exact Hc'].
  apply (fold_left_preserves (fun c => Forall P (sources c)) (fun _ => True)); auto;
    [|now apply Forall_forall].
  intros. now apply link_scene_item_Forall.
Qed.

End Phases.

(** ** The snapshot: identity, effects and attachment *)

Section Snapshot.
Variable h : Host.

Lemma obs_source_type_eqb_eq (a b : obs_source_type) :
  obs_source_type_eqb a b = true <-> a = b.
Proof. destruct a, b; simpl; split; congruence. Qed.

Lemma class_of_Filter (o : obs_source) :
  class_of o = Filter <-> info_type o = OBS_SOURCE_TYPE_FILTER.
Proof.
  unfold class_of. rewrite <- obs_source_type_eqb_eq.
  destruct (obs_source_type_eqb _ _); [tauto|].
  destruct (is_scene o), (is_group o); split; congruence.
Qed.

Lemma recorded_is_discarded (c : SourceCollection) (object : source_ptr)
    (parentName u : string) :
  obs_source_get_uuid h object = Some u -> is_Some (sourcesByUUID c !! u) ->
  Collection.AddSource h object c = c /\ Collection.AddFilter h object parentName c = c.
Proof.
  intros Hu [i Hi].
  assert (Hrec : forall p o, object = Some p -> objects h !! p = Some o ->
                             Collection.uuid_recorded (context_uuid o) c = true).
  { intros p o -> Ho. unfold obs_source_get_uuid, deref in Hu. rewrite Ho in Hu.
    unfold Collection.uuid_recorded. now rewrite Hu, Hi. }
  split.
  - destruct (AddSource_cases h object c) as [E|(p & o & ? & ? & E & Ho & _ & _ & _ & _
      & Hfresh & _)]; [exact E|].
    rewrite (Hrec _ _ E Ho) in Hfresh. discriminate.
  - destruct (AddFilter_cases h object parentName c) as [E|(p & o & ? & ? & E & Ho & _ & _
      & _ & Hfresh & _)]; [exact E|].
    rewrite (Hrec _ _ E Ho) in Hfresh. discriminate.
Qed.

(** C1 (as amended): among the records of a snapshot for which the host
    reports a (non-null) uuid, no two share it; and during a pass an object
    offered to [AddSource] or [AddFilter] whose non-null uuid is the one
    reported for a record already in the collection is discarded, the
    collection staying as it is. *)
Theorem reported_identity_is_unique (c0 : SourceCollection) :
  (forall i j it1 it2 u,
      sources (Collection.Refresh h c0) !! i = Some it1 ->
      sources (Collection.Refresh h c0) !! j = Some it2 ->
      reported_uuid h it1 = Some u -> reported_uuid h it2 = Some u -> i = j)
  /\ (forall c object parentName u i it,
        InPass h c -> obs_source_get_uuid h object = Some u ->
        sources c !! i = Some it -> reported_uuid h it = Some u ->
        Collection.AddSource h object c = c
        /\ Collection.AddFilter h object parentName c = c).
Proof.
  split.
  - intros i j it1 it2 u. apply Inv_unique, InPass_Inv, InPass_Refresh.
  - intros c object parentName u i it Hc Hu Hit Hitu.
    apply recorded_is_discarded with (u := u); [exact Hu|].
    exists i. eapply inv_recorded; eauto using InPass_Inv.
Qed.

(** C3 (as amended): [AddFilter] rejects an effect exactly when it is null,
    has no name or an empty one, has no type tag, has the type tag
    "audio_monitor", has a non-null uuid that is already recorded, or no
    longer resolves; the "_wrapper_", "audio_line" and "(Stinger)" tests of
    [AddSource] are not applied to effects.  An effect that is not rejected
    is appended with its parent name set, and the name [LinkFilters] passes
    is the parent's raw name ([GetName]). *)
Theorem effects_pass_checks (filter : source_ptr) (parentName : string)
    (c : SourceCollection) :
  ((deref h filter = None \/
    exists o, deref h filter = Some o /\
      (context_name o = None \/ context_name o = Some "" \/ info_id o = None
       \/ info_id o = Some "audio_monitor"
       \/ Collection.uuid_recorded (context_uuid o) c = true \/ alive o = false)) ->
   Collection.AddFilter h filter parentName c = c)
  /\ (forall o name typeId,
        deref h filter = Some o ->
        context_name o = Some name -> name <> "" ->
        info_id o = Some typeId -> typeId <> "audio_monitor" ->
        Collection.uuid_recorded (context_uuid o) c = false -> alive o = true ->
        sources (Collection.AddFilter h filter parentName c)
        = (sources c ++ [Item.SetParentSourceName parentName (Item.new h filter)])%list)
  /\ (forall it,
        In it (sources (Collection.LinkFilters h c)) ->
        In it (sources c) \/
        exists parent p o fp,
          In parent (sources c) /\ Item.GetSource h parent = Some p
          /\ objects h !! p = Some o /\ In (Some fp) (filters o)
          /\ it = Item.SetParentSourceName (Item.GetName h parent)
                    (Item.new h (Some fp))).
Proof.
  split; [apply AddFilter_rejects|]. split.
  - intros o name typeId Ho Hn Hne Hid Ham Hrec Ha.
    now rewrite (AddFilter_accepts h filter parentName c o name typeId).
  - apply List.Forall_forall. apply LinkFilters_Forall.
    + apply List.Forall_forall. auto.
    + intros parent p o fp fo Hin Hp Ho Hf _ _. right. exists parent, p, o, fp. auto.
Qed.

Local Abbreviation top_ok := (top_ok h).

Lemma top_level_records (c0 : SourceCollection) :
  Forall top_ok (sources (Collection.EnumAllSources h (Collection.Clear c0))).
Proof.
  apply EnumAllSources_Forall; [constructor|].
  intros p o name Ho Hty Hn Hne Ha. unfold top_ok.
  rewrite (GetName_live h _ p o name); auto; rewrite (new_live _ _ _ Ho); auto.
  cbn [parentSourceName sourceClass]. rewrite class_of_Filter. auto.
Qed.

(** C4: in a snapshot of a host whose filter lists hold objects of type
    [OBS_SOURCE_TYPE_FILTER] only, a record has a non-empty
    [parentSourceName] if and only if it is classified [Filter]. *)
Theorem attachment_iff_effect (c0 : SourceCollection) (it : SourceItem) :
  filters_are_filters h ->
  In it (sources (Collection.Refresh h c0)) ->
  (parentSourceName it <> "" <-> sourceClass it = Filter).
Proof.
  intros Hhost. revert it. apply List.Forall_forall. unfold Collection.Refresh.
  pose proof (top_level_records c0) as Htop.
  apply (LinkSceneItems_Forall h att_ok); [intros; assumption|].
  apply LinkFilters_Forall.
  - eapply Forall_impl; [exact Htop|]. intros x (Hx & Hc & _). unfold att_ok.
    rewrite Hx. tauto.
  - intros parent p o fp fo Hin Hp Ho Hf Hfo Ha.
    rewrite List.Forall_forall in Htop. destruct (Htop _ Hin) as (_ & _ & Hname).
    unfold att_ok. rewrite (new_live _ _ _ Hfo).
    cbn [parentSourceName sourceClass Item.SetParentSourceName].
    rewrite class_of_Filter. split; [intros _|intros _; exact Hname].
    apply (Hhost p o (Some fp) fo Ho Hf). exact Hfo.
Qed.

End Snapshot.

(** ** The relationship linker *)

Section Linker.
Variable h : Host.

Lemma set_insert_In (x y : string) (s : list string) :
  In x (set_insert y s) <-> x = y \/ In x s.
Proof.
  induction s as [|z s IH]; simpl; [intuition|].
  destruct (String.compare y z) eqn:E; simpl.
  - apply String.compare_eq_iff in E. subst z. intuition.
  - intuition.
  - rewrite IH. intuition.
Qed.

Lemma same_record_refl (it : SourceItem) : same_record it it.
Proof. now repeat split. Qed.

Lemma same_record_trans (a b c : SourceItem) :
  same_record a b -> same_record b c -> same_record a c.
Proof. unfold same_record. intuition congruence. Qed.

Lemma linked_refl (c : SourceCollection) : linked (fun _ _ => False) c c.
Proof.
  repeat split; auto. intros i it Hit. exists it.
  split; [exact Hit|]. split; [apply same_record_refl|]. intuition.
Qed.

Lemma linked_trans (R1 R2 : nat -> string -> Prop) (c c' c'' : SourceCollection) :
  linked R1 c c' -> linked R2 c' c'' -> linked (fun i x => R1 i x \/ R2 i x) c c''.
Proof.
  intros (Hu1 & Hd1 & Hl1 & H1) (Hu2 & Hd2 & Hl2 & H2).
  repeat split; try congruence. intros i it Hit.
  destruct (H1 _ _ Hit) as (it' & Hit' & Hs1 & Hp1).
  destruct (H2 _ _ Hit') as (it'' & Hit'' & Hs2 & Hp2).
  exists it''. split; [exact Hit''|]. split; [eapply same_record_trans; eauto|].
  intros x. rewrite Hp2, Hp1. tauto.
Qed.

Lemma linked_weaken (R R' : nat -> string -> Prop) (c c' : SourceCollection) :
  (forall i x, R i x <-> R' i x) -> linked R c c' -> linked R' c c'.
Proof.
  intros HR (Hu & Hd & Hl & H1). repeat split; auto. intros i it Hit.
  destruct (H1 _ _ Hit) as (it' & Hit' & Hs & Hp). exists it'.
  split; [exact Hit'|]. split; [exact Hs|]. intros x. rewrite Hp, HR. tauto.
Qed.

Lemma linked_update (c : SourceCollection) (i : nat) (sceneName : string) :
  linked (fun j x => j = i /\ x = sceneName) c
         (Collection.update_item i (Item.AddParentScene sceneName) c).
Proof.
  repeat split; cbn [sources Collection.update_item]; [apply length_alter|].
  intros j it Hit. rewrite list_lookup_alter. case_decide.
  - subst j. rewrite Hit. eexists. split; [reflexivity|].
    split; [apply AddParentScene_frame|]. intros x.
    cbn [parentScenes Item.AddParentScene]. rewrite set_insert_In. intuition.
  - exists it. split; [exact Hit|]. split; [apply same_record_refl|].
    intros x. intuition congruence.
Qed.

Lemma linked_fold {B : Type} (f : SourceCollection -> B -> SourceCollection)
    (R : SourceCollection -> B -> nat -> string -> Prop)
    (l : list B) (c : SourceCollection) :
  (forall c' b, linked (R c' b) c' (f c' b)) ->
  (forall c' R0 b i x, linked R0 c c' -> R c' b i x <-> R c b i x) ->
  linked (fun i x => exists b, In b l /\ R c b i x) c (fold_left f l c).
Proof.
  intros Hstep Hstable. induction l as [|b l IH] using rev_ind.
  - simpl. eapply linked_weaken; [|apply linked_refl].
    intros i x. split; [tauto|]. intros (b & [] & _).
  - rewrite fold_left_app. cbn [fold_left].
    eapply linked_weaken; [|eapply linked_trans; [exact IH|apply Hstep]].
    intros i x. cbn beta. rewrite (Hstable _ _ b i x IH). split.
    + intros [(b' & Hin & Hr)|Hr]; [exists b'|exists b]; rewrite in_app_iff; simpl; auto.
    + intros (b' & Hin & Hr). apply in_app_iff in Hin.
      destruct Hin as [Hin|[<-|[]]]; eauto.
Qed.

Lemma holds_child_same_record (it it' : SourceItem) (u : string) :
  same_record it it' -> holds_child h it u <-> holds_child h it' u.
Proof.
  intros (Hw & Hc & _). unfold holds_child, Item.IsScene, Item.IsGroup, Item.GetSource.
  now rewrite Hw, Hc.
Qed.

Lemma GetName_same_record (it it' : SourceItem) :
  same_record it it' -> Item.GetName h it' = Item.GetName h it.
Proof. intros (Hw & _). now apply GetName_weakSource. Qed.

Lemma link_scene_item_linked (sceneName : string) (c : SourceCollection)
    (child : source_ptr) :
  linked (fun i x => x = sceneName /\
                     exists u, obs_source_get_uuid h child = Some u
                               /\ sourcesByUUID c !! u = Some i)
         c (Collection.link_scene_item h sceneName c child).
Proof.
  unfold Collection.link_scene_item, obs_source_get_uuid.
  destruct (deref h child) as [o|].
  2:{ eapply linked_weaken; [|apply linked_refl]. intros i x. split; [tauto|].
      intros (_ & u & Hu & _). discriminate. }
  destruct (context_uuid o) as [u|].
  2:{ eapply linked_weaken; [|apply linked_refl]. intros i x. split; [tauto|].
      intros (_ & u & Hu & _). discriminate. }
  destruct (sourcesByUUID c !! u) as [i|] eqn:Hi.
  - eapply linked_weaken; [|apply linked_update]. intros j x. cbn beta. split.
    + intros [-> ->]. eauto.
    + intros (-> & u' & Hu & Hj). injection Hu as <-. split; congruence.
  - eapply linked_weaken; [|apply linked_refl]. intros j x. split; [tauto|].
    intros (_ & u' & Hu & Hj). injection Hu as <-. congruence.
Qed.

Lemma LinkSceneItems_at_linked (c : SourceCollection) (j : nat) :
  linked (linked_at h c j) c (Collection.LinkSceneItems_at h c j).
Proof.
  unfold Collection.LinkSceneItems_at.
  assert (Hno : (forall i x, ~ linked_at h c j i x) -> linked (linked_at h c j) c c).
  { intros Hn. eapply linked_weaken; [|apply linked_refl].
    intros i x. split; [tauto|]. apply Hn. }
  destruct (sources c !! j) as [item|] eqn:Hj.
  2:{ apply Hno. intros i x (sc & u & Hsc & _). congruence. }
  destruct (negb (Item.IsScene item) && negb (Item.IsGroup item)) eqn:Hk.
  { apply Hno. intros i x (sc & u & Hsc & (Hcl & _) & _).
    rewrite Hj in Hsc. injection Hsc as <-.
    destruct (Item.IsScene item), (Item.IsGroup item); discriminate. }
  destruct (Item.GetSource h item) as [p|] eqn:Hp.
  2:{ apply Hno. intros i x (sc & u & Hsc & (_ & p & o & items & ch & Hp' & _) & _).
      rewrite Hj in Hsc. injection Hsc as <-. congruence. }
  cbn [deref]. destruct (objects h !! p) as [o|] eqn:Ho.
  2:{ apply Hno. intros i x (sc & u & Hsc & (_ & p' & o & items & ch & Hp' & Ho' & _) & _).
      rewrite Hj in Hsc. injection Hsc as <-. congruence. }
  destruct (scene_items o) as [items|] eqn:Hitems.
  2:{ apply Hno.
      intros i x (sc & u & Hsc & (_ & p' & o' & items & ch & Hp' & Ho' & Hi' & _) & _).
      rewrite Hj in Hsc. injection Hsc as <-. congruence. }
  eapply linked_weaken;
    [|apply (linked_fold (Collection.link_scene_item h (Item.GetName h item))
               (fun c' ch i x =>
                  x = Item.GetName h item /\
                  exists u, obs_source_get_uuid h ch = Some u
                            /\ sourcesByUUID c' !! u = Some i))].
  - intros i x. cbn beta. split.
    + intros (ch & Hin & -> & u & Hu & Hi). exists item, u. repeat split; auto.
      * destruct (Item.IsScene item), (Item.IsGroup item); auto; discriminate.
      * exists p, o, items, ch. auto.
    + intros (sc & u & Hsc & (_ & p' & o' & items' & ch & Hp' & Ho' & Hi' & Hin & Hu)
              & Hi & ->).
      rewrite Hj in Hsc. injection Hsc as <-. rewrite Hp in Hp'. injection Hp' as <-.
      rewrite Ho in Ho'. injection Ho' as <-. rewrite Hitems in Hi'. injection Hi' as <-.
      exists ch. eauto.
  - intros c' ch. apply link_scene_item_linked.
  - intros c' R0 ch i x (Hu & _). now rewrite Hu.
Qed.

Lemma linked_lookup (R : nat -> string -> Prop) (c c' : SourceCollection)
    (i : nat) (it' : SourceItem) :
  linked R c c' -> sources c' !! i = Some it' ->
  exists it, sources c !! i = Some it /\ same_record it it'
             /\ forall x, In x (parentScenes it') <-> In x (parentScenes it) \/ R i x.
Proof.
  intros (_ & _ & Hlen & Hl) Hit'.
  destruct (lookup_lt_is_Some_2 (sources c) i) as [it Hit].
  { rewrite <- Hlen. eapply lookup_lt_Some; eauto. }
  destruct (Hl _ _ Hit) as (it'' & Hit'' & Hs & Hx).
  rewrite Hit' in Hit''. injection Hit'' as <-. eauto.
Qed.

Lemma linked_at_stable (R0 : nat -> string -> Prop) (c c' : SourceCollection)
    (j i : nat) (x : string) :
  linked R0 c c' -> linked_at h c' j i x <-> linked_at h c j i x.
Proof.
  intros Hl. pose proof Hl as (Hu & _ & _ & Hfw). unfold linked_at. rewrite Hu. split.
  - intros (sc' & u & Hsc' & Hh & Hi & ->).
    destruct (linked_lookup _ _ _ _ _ Hl Hsc') as (sc & Hsc & Hs & _).
    exists sc, u. rewrite (holds_child_same_record _ _ u Hs).
    rewrite <- (GetName_same_record _ _ Hs). auto.
  - intros (sc & u & Hsc & Hh & Hi & ->).
    destruct (Hfw _ _ Hsc) as (sc' & Hsc' & Hs & _).
    exists sc', u. rewrite <- (holds_child_same_record _ _ u Hs).
    rewrite (GetName_same_record _ _ Hs). auto.
Qed.

Lemma LinkSceneItems_linked (c : SourceCollection) :
  linked (fun i x => exists j, linked_at h c j i x) c (Collection.LinkSceneItems h c).
Proof.
  unfold Collection.LinkSceneItems.
  eapply linked_weaken; [|apply (linked_fold (Collection.LinkSceneItems_at h) (linked_at h))].
  - intros i x. cbn beta. split.
    + intros (j & _ & Hj). eauto.
    + intros (j & Hj). exists j. split; [|exact Hj].
      destruct Hj as (sc & u & Hsc & _). apply lookup_lt_Some in Hsc.
      apply in_seq. lia.
  - intros c' j. apply LinkSceneItems_at_linked.
  - intros c' R0 j i x Hl. now apply linked_at_stable with (R0 := R0).
Qed.

End Linker.

Section Parents.
Variable h : Host.

Lemma unlinked_records (c0 : SourceCollection) :
  Forall (fun it => parentScenes it = [])
         (sources (Collection.LinkFilters h
                     (Collection.EnumAllSources h (Collection.Clear c0)))).
Proof.
  apply LinkFilters_Forall; [apply EnumAllSources_Forall; [constructor|]|].
  - intros p o name Ho _ _ _ _. now rewrite (new_live _ _ _ Ho).
  - intros parent p o fp fo _ _ _ _ Hfo _. now rewrite (new_live _ _ _ Hfo).
Qed.

Lemma parents_characterised (c0 : SourceCollection) (i : nat) (it : SourceItem)
    (x : string) :
  sources (Collection.Refresh h c0) !! i = Some it ->
  (In x (parentScenes it) <->
   exists sc u,
     In sc (sources (Collection.Refresh h c0)) /\ holds_child h sc u
     /\ reported_uuid h it = Some u /\ x = Item.GetName h sc).
Proof.
  pose proof (InPass_Inv h _ (InPass_Refresh h c0)) as [Hlook Hrec _].
  unfold Collection.Refresh in *.
  set (c1 := Collection.LinkFilters h _) in *.
  pose proof (LinkSceneItems_linked h c1) as Hl.
  pose proof Hl as (Hu & _ & _ & Hfw).
  intros Hit. destruct (linked_lookup _ _ _ _ _ Hl Hit) as (it1 & Hit1 & _ & Hx).
  assert (Hempty : parentScenes it1 = []).
  { pose proof (unlinked_records c0) as Hall. rewrite List.Forall_forall in Hall.
    apply Hall. apply list_elem_of_In. eapply list_elem_of_lookup_2; eauto. }
  rewrite Hx, Hempty. clear Hx. split.
  - intros [[]|(j & sc1 & u & Hsc1 & Hh & Hi & ->)].
    destruct (Hfw _ _ Hsc1) as (sc & Hsc & Hs & _). exists sc, u.
    split; [apply list_elem_of_In; eapply list_elem_of_lookup_2; eauto|].
    split; [now apply (holds_child_same_record h _ _ u Hs)|].
    split; [|symmetry; now apply GetName_same_record].
    rewrite <- Hu in Hi. destruct (Hlook _ _ Hi) as (it' & Hit' & Hitu). congruence.
  - intros (sc & u & Hin & Hh & Hitu & ->). right.
    apply list_elem_of_In, list_elem_of_lookup_1 in Hin. destruct Hin as [j Hsc].
    destruct (linked_lookup _ _ _ _ _ Hl Hsc) as (sc1 & Hsc1 & Hs & _).
    exists j, sc1, u. split; [exact Hsc1|].
    split; [now apply (holds_child_same_record h _ _ u Hs)|].
    split; [|now apply GetName_same_record].
    rewrite <- Hu. eapply Hrec; eauto.
Qed.

(** C5 (as amended): after the linking pass, the parent set of a record
    holds exactly the raw names of the Scene and Group records of the
    snapshot whose live object has, among its direct children, an object
    reported under the record's uuid; this is so for records of every
    classification, so that Scene and Group records which are themselves
    children of a container acquire parent names as Plain records do.  The
    parent set of a [Filter] record is empty whenever the host shows no
    filter as a scene item and reports no uuid twice. *)
Theorem parents_are_the_holding_containers (c0 : SourceCollection) :
  (forall i it x,
      sources (Collection.Refresh h c0) !! i = Some it ->
      (In x (parentScenes it) <->
       exists sc u,
         In sc (sources (Collection.Refresh h c0)) /\ holds_child h sc u
         /\ reported_uuid h it = Some u /\ x = Item.GetName h sc))
  /\ (scene_items_are_not_filters h -> uuids_are_unique h ->
      forall it,
        In it (sources (Collection.Refresh h c0)) -> sourceClass it = Filter ->
        parentScenes it = []).
Proof.
  split; [intros i it x; apply parents_characterised|].
  intros Hitems Huniq it Hin Hcl.
  apply list_elem_of_In, list_elem_of_lookup_1 in Hin. destruct Hin as [i Hit].
  destruct (parentScenes it) as [|x l] eqn:Hps; [reflexivity|exfalso].
  assert (Hx : In x (parentScenes it)) by (rewrite Hps; now left).
  apply (parents_characterised c0 i it x Hit) in Hx.
  destruct Hx as (sc & u & _ & (_ & p & o & items & child & _ & Ho & Hi & Hch & Hcu)
                  & Hitu & _).
  destruct (inv_live _ _ (InPass_Inv h _ (InPass_Refresh h c0)) _ _ Hit)
    as (pi & oi & Hw & Hoi & Ha & Hc).
  rewrite (reported_uuid_live h _ _ _ Hw Hoi Ha) in Hitu.
  unfold obs_source_get_uuid in Hcu. destruct (deref h child) as [co|] eqn:Hco;
    [|discriminate].
  destruct child as [q|]; [|discriminate]. cbn [deref] in Hco.
  assert (pi = q) by (eapply Huniq; eauto). subst q.
  assert (co = oi) by congruence. subst co.
  apply (Hitems p o items (Some pi) oi Ho Hi Hch Hoi).
  apply class_of_Filter. congruence.
Qed.

End Parents.

(** ** The dock and the life cycle of the collection *)

Section DockAndLifeCycle.
Variable h : Host.

(** C7: a record that is neither a filter, nor a scene, nor a group, and
    whose set of parent scenes is empty, is in no row of the result list,
    whatever the search text, the type filter and the scope. *)
Theorem orphans_are_never_shown (c : SourceCollection)
    (searchText typeFilter scope : string) (it : SourceItem) :
  Item.IsFilter it = false -> Item.IsScene it = false -> Item.IsGroup it = false ->
  parentScenes it = [] ->
  forall row, In row (Dock.UpdateResults h c searchText typeFilter scope) ->
              snd row <> it.
Proof.
  intros Hf Hs Hg Hp row Hin Heq. unfold Dock.UpdateResults in Hin.
  apply in_map_iff in Hin. destruct Hin as (item & <- & Hin).
  apply filter_In in Hin. destruct Hin as [_ Hshown]. simpl in Heq. subst item.
  unfold Dock.shown in Hshown. rewrite Hf, Hs, Hg, Hp in Hshown.
  rewrite !andb_false_r in Hshown. destruct (String.eqb scope "filters"); discriminate.
Qed.

(** C9: [Refresh] starts from an empty collection whatever the collection
    held before, so that refreshing again against the same host gives the
    same snapshot: the same records, in particular the same tuples of
    identity, classification, type tag, parent scenes and parent source
    name. *)
Theorem Refresh_is_idempotent (c : SourceCollection) :
  Collection.Refresh h (Collection.Refresh h c) = Collection.Refresh h c
  /\ map (snapshot_tuple h) (sources (Collection.Refresh h (Collection.Refresh h c)))
     = map (snapshot_tuple h) (sources (Collection.Refresh h c)).
Proof. split; reflexivity. Qed.

(** C10: after [Clear] the collection holds no record, no uuid and no
    discovered type; [Search] then returns the empty list for every search
    text and type filter, and [Refresh] begins in that state. *)
Theorem Clear_postcondition (c : SourceCollection) :
  sources (Collection.Clear c) = []
  /\ sourcesByUUID (Collection.Clear c) = ∅
  /\ discoveredTypes (Collection.Clear c) = ∅
  /\ (forall searchText typeFilter,
        Collection.Search h (Collection.Clear c) searchText typeFilter = [])
  /\ Collection.Refresh h c = Collection.Refresh h (Collection.Clear c).
Proof. repeat split; reflexivity. Qed.

End DockAndLifeCycle.

(** ** Concrete instances on the example project *)

Module Instances.
Import Example.

Lemma studio_filters_are_filters : filters_are_filters studio.
Proof.
  intros p o f fo Ho Hin Hd.
  do 8 (destruct p as [|p];
        [injection Ho as <-; cbn in Hin; intuition (subst; cbn in Hd; try discriminate;
           injection Hd as <-; reflexivity)|]).
  discriminate.
Qed.

Lemma studio_scene_items_are_not_filters : scene_items_are_not_filters studio.
Proof.
  intros p o items child co Ho Hi Hin Hd.
  do 8 (destruct p as [|p];
        [injection Ho as <-; cbn in Hi; try discriminate; injection Hi as <-;
         cbn in Hin; intuition (subst; cbn in Hd; try discriminate;
           injection Hd as <-; discriminate)|]).
  discriminate.
Qed.

Lemma studio_uuids_are_unique : uuids_are_unique studio.
Proof.
  intros p q o o' u Ho Ho' Hu Hu'.
  do 8 (destruct p as [|p];
        [injection Ho as <-; cbn in Hu; try discriminate; injection Hu as <-;
         do 8 (destruct q as [|q];
               [injection Ho' as <-; cbn in Hu'; try discriminate; reflexivity|]);
         discriminate|]).
  discriminate.
Qed.

(** C1, as stated, fails: "Loose1" and "Loose2" are two records of one
    snapshot with the same identity, the empty string that [GetUUID] gives
    when the host reports no uuid. *)
Lemma unreported_identity_is_shared :
  ~ (forall h c0 i j it1 it2,
        sources (Collection.Refresh h c0) !! i = Some it1 ->
        sources (Collection.Refresh h c0) !! j = Some it2 ->
        Item.GetUUID h it1 = Item.GetUUID h it2 -> i = j).
Proof.
  intros H.
  specialize (H studio empty_collection 4 5 _ _ eq_refl eq_refl eq_refl). discriminate.
Qed.

Lemma reported_identity_is_unique_witness :
  InPass studio snapshot
  /\ obs_source_get_uuid studio (Some 2) = Some "u2"
  /\ sources snapshot !! 2 = Some cam_record
  /\ reported_uuid studio cam_record = Some "u2"
  /\ Collection.AddSource studio (Some 2) snapshot = snapshot
  /\ Collection.AddFilter studio (Some 2) "Main" snapshot = snapshot.
Proof.
  assert (Hp : InPass studio snapshot) by apply InPass_Refresh.
  assert (Hu : obs_source_get_uuid studio (Some 2) = Some "u2") by reflexivity.
  assert (Hl : sources snapshot !! 2 = Some cam_record) by reflexivity.
  assert (Hr : reported_uuid studio cam_record = Some "u2") by reflexivity.
  repeat (split; [assumption|]).
  exact (proj2 (reported_identity_is_unique studio empty_collection)
               snapshot (Some 2) "Main" "u2" 2 cam_record Hp Hu Hl Hr).
Defined.

(** C2, as stated, fails: the scene "Main" is listed after the group "Grp",
    although its display name "(H) Main" is smaller than "Grp". *)
Lemma Search_not_ordered_by_display_name :
  ~ (forall h c searchText typeFilter,
        Sorted (fun a b => not_after (Item.GetDisplayName h a) (Item.GetDisplayName h b))
               (Collection.Search h c searchText typeFilter)).
Proof.
  intros H. specialize (H studio snapshot "" "all").
  apply no_descent_of_sorted in H. vm_compute in H. discriminate.
Qed.

(** C3, as stated, fails: an effect whose type tag is "audio_line" is not
    rejected. *)
Lemma effect_with_excluded_tag_is_added :
  ~ (forall h c filter parentName o typeId,
        deref h filter = Some o -> info_id o = Some typeId ->
        typeId = "audio_monitor" \/ strstr_found typeId "_wrapper_" = true
        \/ typeId = "audio_line" ->
        Collection.AddFilter h filter parentName c = c).
Proof.
  intros H.
  specialize (H studio empty_collection (Some 7) "Cam1" _ "audio_line" eq_refl eq_refl
                (or_intror (or_intror eq_refl))).
  apply (f_equal sources) in H. vm_compute in H. discriminate.
Qed.

Lemma effects_pass_checks_witness :
  sources (Collection.AddFilter studio (Some 7) "Cam1" empty_collection)
  = [Item.SetParentSourceName "Cam1" (Item.new studio (Some 7))].
Proof.
  refine (proj1 (proj2 (effects_pass_checks studio (Some 7) "Cam1" empty_collection))
                _ "Line" "audio_line" eq_refl eq_refl _ eq_refl _ eq_refl eq_refl);
    discriminate.
Defined.

Lemma attachment_iff_effect_witness :
  filters_are_filters studio
  /\ In blur_record (sources snapshot)
  /\ (parentSourceName blur_record <> "" <-> sourceClass blur_record = Filter).
Proof.
  assert (Hin : In blur_record (sources snapshot)) by (vm_compute; tauto).
  split; [apply studio_filters_are_filters|]. split; [exact Hin|].
  exact (attachment_iff_effect studio empty_collection blur_record
           studio_filters_are_filters Hin).
Defined.

(** C5, as stated, fails: the group "Grp" is a child of the scene "Main"
    and its parent set is not empty. *)
Lemma nested_group_has_a_parent :
  ~ (forall h c0 it,
        In it (sources (Collection.Refresh h c0)) ->
        sourceClass it = Scene \/ sourceClass it = Group \/ sourceClass it = Filter ->
        parentScenes it = []).
Proof.
  intros H. specialize (H studio empty_collection group_record).
  assert (Hin : In group_record (sources (Collection.Refresh studio empty_collection)))
    by (vm_compute; tauto).
  specialize (H Hin (or_intror (or_introl eq_refl))). discriminate.
Qed.

Lemma parents_are_the_holding_containers_witness :
  scene_items_are_not_filters studio /\ uuids_are_unique studio
  /\ In blur_record (sources snapshot) /\ sourceClass blur_record = Filter
  /\ parentScenes blur_record = [].
Proof.
  assert (Hin : In blur_record (sources snapshot)) by (vm_compute; tauto).
  split; [apply studio_scene_items_are_not_filters|].
  split; [apply studio_uuids_are_unique|]. split; [exact Hin|]. split; [reflexivity|].
  exact (proj2 (parents_are_the_holding_containers studio empty_collection)
               studio_scene_items_are_not_filters studio_uuids_are_unique
               blur_record Hin eq_refl).
Defined.

(** C6, as stated, fails: the display name "(H) Main" of the scene "Main"
    contains "(h)" up to case, yet the record does not pass the text
    filter for "(h)". *)
Lemma text_filter_ignores_canvas_annotation :
  ~ (forall h it searchText,
        Item.MatchesSearch h it searchText = true <->
        searchText = "" \/ contains_ci (Item.GetDisplayName h it) searchText).
Proof.
  intros H. destruct (H studio main_record "(h)") as [_ H'].
  assert (Hm : Item.MatchesSearch studio main_record "(h)" = true).
  { apply H'. right. exists "", "(H)", " Main". split; reflexivity. }
  vm_compute in Hm. discriminate.
Qed.

Lemma text_filter_on_raw_name_witness :
  Item.MatchesSearch studio cam_record "CAM" = true
  /\ Item.MatchesSearch studio blur_record "CAM" = Item.MatchesSearch studio blur_record "cam"
  /\ Collection.Search studio snapshot "cam" "all"
     = Collection.Search studio snapshot "CAM" "all".
Proof.
  split; [|split].
  - apply (proj1 (text_filter_on_raw_name studio cam_record "CAM")).
    right. exists "", "Cam", "1". split; reflexivity.
  - reflexivity.
  - apply (proj2 (proj2 (text_filter_on_raw_name studio cam_record "CAM"))).
    reflexivity.
Defined.

Lemma orphans_are_never_shown_witness :
  Item.IsFilter loose_record = false /\ Item.IsScene loose_record = false
  /\ Item.IsGroup loose_record = false /\ parentScenes loose_record = []
  /\ In ("Cam1 [Video Capture Device] in: Main, Vertical", cam_record)
        (Dock.UpdateResults studio snapshot "" "all" "all")
  /\ cam_record <> loose_record.
Proof.
  assert (Hin : In ("Cam1 [Video Capture Device] in: Main, Vertical", cam_record)
                   (Dock.UpdateResults studio snapshot "" "all" "all"))
    by (vm_compute; tauto).
  repeat (split; [first [reflexivity | exact Hin]|]).
  exact (orphans_are_never_shown studio snapshot "" "all" "all" loose_record
           eq_refl eq_refl eq_refl eq_refl _ Hin).
Defined.

Lemma Search_drops_stale_records_witness :
  Item.IsValid studio_without_cam cam_record = false
  /\ ~ In cam_record (Collection.Search studio_without_cam snapshot "cam" "all").
Proof.
  split; [reflexivity|].
  exact (Search_drops_stale_records studio_without_cam snapshot "cam" "all" cam_record
           eq_refl).
Defined.

End Instances.

(** * Further properties of the index and of the query engine *)

(** ** The type filter and the text filter of [Search] *)

Section QueryMore.
Variable h : Host.

Lemma MatchesType_all (it : SourceItem) :
Item.MatchesType it "" = true /\ Item.MatchesType it "all" = true.
Proof. split; reflexivity. Qed.

Lemma MatchesType_tag (it : SourceItem) (typeFilter : string) :
typeFilter <> "" -> typeFilter <> "all" ->
Item.MatchesType it typeFilter = true <-> cachedTypeId it = typeFilter.
Proof.
intros Hne Hall. unfold Item.MatchesType. destruct typeFilter as [|a s]; [congruence|].
apply String.eqb_neq in Hall. rewrite Hall. apply String.eqb_eq.
Qed.

(** The type filter is exact: the empty filter and "all" let every record
  through, and any other filter keeps, of the records found for "all",
  exactly those whose cached type tag equals it. *)
Theorem Search_type_filter_exact (c : SourceCollection) (searchText typeFilter : string) :
typeFilter <> "" -> typeFilter <> "all" ->
Collection.Search h c searchText "" = Collection.Search h c searchText "all"
/\ forall it,
     In it (Collection.Search h c searchText typeFilter) <->
     In it (Collection.Search h c searchText "all") /\ cachedTypeId it = typeFilter.
Proof.
intros Hne Hall. split; [reflexivity|]. intros it. rewrite !Search_In.
rewrite (MatchesType_tag it typeFilter Hne Hall).
destruct (MatchesType_all it) as [_ ->]. tauto.
Qed.

(** Narrowing never adds results: what is found for a search text and a
  type filter is also found with the text left empty, and also with the
  type filter set to "all"; and no more records are found than the
  collection holds. *)
Theorem Search_monotone (c : SourceCollection) (searchText typeFilter : string) :
incl (Collection.Search h c searchText typeFilter) (Collection.Search h c "" typeFilter)
/\ incl (Collection.Search h c searchText typeFilter)
        (Collection.Search h c searchText "all")
/\ length (Collection.Search h c searchText typeFilter) <= length (sources c).
Proof.
split; [|split].
- intros it. rewrite !Search_In. intuition.
- intros it. rewrite !Search_In. destruct (MatchesType_all it) as [_ ->]. intuition.
- rewrite <- (Permutation_length (Search_perm h c searchText typeFilter)).
  unfold survivors. apply List.filter_length_le.
Qed.

End QueryMore.

(** ** What [strstr] finds *)

Section Strstr.

Lemma match_here_eqb (hay needle : string) :
match_here Ascii.eqb hay needle = true <-> exists post, hay = needle +:+ post.
Proof.
revert hay. induction needle as [|b needle IH]; intros hay; simpl.
- split; [|reflexivity]. intros _. exists hay. reflexivity.
- destruct hay as [|a hay].
  + split; [discriminate|]. intros (post & Hp). discriminate.
  + rewrite andb_true_iff, IH, Ascii.eqb_eq. split.
    * intros (-> & post & ->). exists post. reflexivity.
    * intros (post & Hp).
      change (String b needle +:+ post) with (String b (needle +:+ post)) in Hp.
      injection Hp as -> ->. eauto.
Qed.

Lemma strstr_found_spec (hay needle : string) :
strstr_found hay needle = true <-> contains hay needle.
Proof.
unfold strstr_found, contains. destruct needle as [|b needle].
{ split; [|reflexivity]. intros _. exists "", hay. reflexivity. }
rewrite negb_true_iff, std_search_found by discriminate. split.
- intros (pre & rest & -> & Hm). apply match_here_eqb in Hm.
  destruct Hm as (post & ->). eauto.
- intros (pre & post & ->). exists pre, (String b needle +:+ post).
  split; [reflexivity|]. apply match_here_eqb. eauto.
Qed.

Lemma strstr_not_found (hay needle : string) :
strstr_found hay needle = false <-> ~ contains hay needle.
Proof.
rewrite <- strstr_found_spec. destruct (strstr_found hay needle); split; congruence.
Qed.

End Strstr.

(** ** The records of a snapshot *)

Section Records.
Variable h : Host.

Lemma AddSource_full (source : source_ptr) (c : SourceCollection) :
Collection.AddSource h source c = c \/
exists p o name typeId,
  source = Some p /\ objects h !! p = Some o /\ source_eligible o name typeId
  /\ Collection.uuid_recorded (context_uuid o) c = false /\ alive o = true
  /\ Collection.AddSource h source c
     = Collection.add_to_collections h typeId (context_uuid o) (Item.new h (Some p)) c.
Proof.
unfold Collection.AddSource. destruct source as [p|]; cbn [deref]; [|now left].
destruct (objects h !! p) as [o|] eqn:Ho; [|now left].
destruct (obs_source_type_eqb (info_type o) OBS_SOURCE_TYPE_FILTER) eqn:Hf;
  cbn [orb]; [now left|].
destruct (obs_source_type_eqb (info_type o) OBS_SOURCE_TYPE_TRANSITION) eqn:Ht;
  [now left|].
destruct (context_name o) as [name|] eqn:Hn; [|now left].
destruct (String.length name =? 0) eqn:Hlen; [now left|].
destruct (info_id o) as [typeId|] eqn:Hid; [|now left].
destruct (String.eqb_spec typeId "audio_monitor") as [|Ham]; [now left|].
destruct (strstr_found typeId "_wrapper_") eqn:Hw; [now left|].
destruct (strstr_found name "(Stinger)") eqn:Hs; [now left|].
destruct (String.eqb_spec typeId "audio_line") as [|Hal]; [now left|].
destruct (Collection.uuid_recorded (context_uuid o) c) eqn:Hrec; [now left|].
rewrite (IsValid_new _ _ _ Ho). destruct (alive o) eqn:Ha; cbn [negb]; [|now left].
right. exists p, o, name, typeId. unfold source_eligible.
repeat split; try assumption; try reflexivity.
- intros Heq. rewrite Heq in Hf. discriminate.
- intros Heq. rewrite Heq in Ht. discriminate.
- now apply length_zero_eqb.
Qed.

Lemma AddSource_accepts (p : nat) (o : obs_source) (name typeId : string)
  (c : SourceCollection) :
objects h !! p = Some o -> source_eligible o name typeId ->
Collection.uuid_recorded (context_uuid o) c = false -> alive o = true ->
Collection.AddSource h (Some p) c
= Collection.add_to_collections h typeId (context_uuid o) (Item.new h (Some p)) c.
Proof.
intros Ho (Hf & Ht & Hn & Hne & Hid & Ham & Hw & Hs & Hal) Hrec Ha.
unfold Collection.AddSource. cbn [deref]. rewrite Ho, Hn, Hid, Hw, Hs, Hrec.
destruct (obs_source_type_eqb (info_type o) OBS_SOURCE_TYPE_FILTER) eqn:Ef;
  [apply obs_source_type_eqb_eq in Ef; contradiction|].
destruct (obs_source_type_eqb (info_type o) OBS_SOURCE_TYPE_TRANSITION) eqn:Et;
  [apply obs_source_type_eqb_eq in Et; contradiction|].
cbn [orb]. apply length_zero_eqb in Hne. rewrite Hne.
apply String.eqb_neq in Ham, Hal. rewrite Ham, Hal.
now rewrite (IsValid_new _ _ _ Ho), Ha.
Qed.

Lemma AddFilter_full (filter : source_ptr) (parentName : string) (c : SourceCollection) :
Collection.AddFilter h filter parentName c = c \/
exists p o name typeId,
  filter = Some p /\ objects h !! p = Some o /\ filter_eligible o name typeId
  /\ Collection.uuid_recorded (context_uuid o) c = false /\ alive o = true
  /\ Collection.AddFilter h filter parentName c
     = Collection.add_to_collections h typeId (context_uuid o)
         (Item.SetParentSourceName parentName (Item.new h (Some p))) c.
Proof.
unfold Collection.AddFilter. destruct filter as [p|]; cbn [deref]; [|now left].
destruct (objects h !! p) as [o|] eqn:Ho; [|now left].
destruct (context_name o) as [name|] eqn:Hn; [|now left].
destruct (String.length name =? 0) eqn:Hlen; [now left|].
destruct (info_id o) as [typeId|] eqn:Hid; [|now left].
destruct (String.eqb_spec typeId "audio_monitor") as [|Ham]; [now left|].
destruct (Collection.uuid_recorded (context_uuid o) c) eqn:Hrec; [now left|].
rewrite (IsValid_new _ _ _ Ho). destruct (alive o) eqn:Ha; cbn [negb]; [|now left].
right. exists p, o, name, typeId. unfold filter_eligible.
repeat split; try assumption; try reflexivity. now apply length_zero_eqb.
Qed.

(** A property of records holds of every record of a snapshot as soon as
  it holds of the records [AddSource] and [AddFilter] make and is kept by
  [AddParentScene]. *)
Lemma Refresh_Forall (P : SourceItem -> Prop) (c0 : SourceCollection) :
(forall p o name typeId,
    objects h !! p = Some o -> alive o = true -> source_eligible o name typeId ->
    P (Item.new h (Some p))) ->
(forall pp po pname ptype p o name typeId,
    objects h !! pp = Some po -> alive po = true -> source_eligible po pname ptype ->
    In (Some p) (filters po) ->
    objects h !! p = Some o -> alive o = true -> filter_eligible o name typeId ->
    P (Item.SetParentSourceName pname (Item.new h (Some p)))) ->
(forall sceneName it, P it -> P (Item.AddParentScene sceneName it)) ->
Forall P (sources (Collection.Refresh h c0)).
Proof.
intros Hsrc Hflt Hlink. unfold Collection.Refresh.
apply LinkSceneItems_Forall; [exact Hlink|].
set (top := fun it => exists p o name typeId,
                it = Item.new h (Some p) /\ objects h !! p = Some o
                /\ alive o = true /\ source_eligible o name typeId).
assert (Htop : Forall (fun it => P it /\ top it)
                 (sources (Collection.EnumAllSources h (Collection.Clear c0)))).
{ unfold Collection.EnumAllSources.
  apply (fold_left_preserves (fun c => Forall (fun it => P it /\ top it) (sources c))
           (fun _ => True)); [| now apply Forall_forall | constructor].
  intros c source Hc _.
  destruct (AddSource_full source c) as [->|(p & o & name & typeId & -> & Ho & He & _
    & Ha & ->)]; [exact Hc|].
  cbn [sources Collection.add_to_collections]. apply Forall_app. split; [exact Hc|].
  constructor; [|constructor]. split; [eauto|]. exists p, o, name, typeId. auto. }
unfold Collection.LinkFilters.
apply (fold_left_preserves (fun c' => Forall P (sources c'))
         (fun item => top item)).
- intros c' parent Hc' (pp & po & pname & ptype & -> & Hpo & Hpa & Hpe).
  unfold Collection.LinkFilters_item.
  rewrite (GetSource_live h _ pp po) by (rewrite ?(new_live _ _ _ Hpo); auto).
  cbn [deref]. rewrite Hpo.
  rewrite (GetName_live h _ pp po pname);
    [|rewrite (new_live _ _ _ Hpo); auto|auto|auto|apply Hpe].
  apply (fold_left_preserves (fun c' => Forall P (sources c'))
           (fun f => In f (filters po))); [|apply List.Forall_forall; auto|exact Hc'].
  intros c'' f Hc'' Hf.
  destruct (AddFilter_full f pname c'') as [->|(p & o & name & typeId & -> & Ho & He & _
    & Ha & ->)]; [exact Hc''|].
  cbn [sources Collection.add_to_collections]. apply Forall_app. split; [exact Hc''|].
  constructor; [|constructor].
  exact (Hflt pp po pname ptype p o name typeId Hpo Hpa Hpe Hf Ho Ha He).
- eapply Forall_impl; [exact Htop|]. intros it [_ Ht]. exact Ht.
- eapply Forall_impl; [exact Htop|]. intros it [Hp _]. exact Hp.
Qed.

End Records.

Section SnapshotRecords.
Variable h : Host.

Lemma IsValid_live (it : SourceItem) (p : nat) (o : obs_source) :
weakSource it = Some p -> objects h !! p = Some o -> alive o = true ->
Item.IsValid h it = true.
Proof. intros Hw Ho Ha. unfold Item.IsValid. now rewrite (GetSource_live h it p o). Qed.

Lemma snapshot_record_facts (c0 : SourceCollection) (it : SourceItem) :
In it (sources (Collection.Refresh h c0)) ->
Item.IsValid h it = true /\ Item.GetName h it <> ""
/\ cachedTypeId it <> "audio_monitor"
/\ exists p o, weakSource it = Some p /\ objects h !! p = Some o
               /\ info_id o = Some (cachedTypeId it) /\ sourceClass it = class_of o.
Proof.
revert it. apply List.Forall_forall. apply Refresh_Forall.
- intros p o name typeId Ho Ha (_ & _ & Hn & Hne & Hid & Ham & _).
  rewrite (IsValid_new _ _ _ Ho), (GetName_live h _ p o name);
    try (rewrite (new_live _ _ _ Ho)); auto.
  cbn [cachedTypeId weakSource sourceClass]. rewrite Hid. eauto 10.
- intros pp po pname ptype p o name typeId _ _ _ _ Ho Ha (Hn & Hne & Hid & Ham).
  rewrite (IsValid_live _ p o), (GetName_live h _ p o name);
    try (rewrite (new_live _ _ _ Ho)); auto.
  cbn [cachedTypeId weakSource sourceClass Item.SetParentSourceName]. rewrite Hid.
  eauto 10.
- auto.
Qed.

(** Every record of a snapshot stands for an object that resolves when the
  snapshot is taken, has a non-empty name there, carries the type tag the
  host reports for that object and the class derived from it, and its type
  tag is never "audio_monitor". *)
Theorem snapshot_records_are_live_and_named (c0 : SourceCollection) (it : SourceItem) :
In it (sources (Collection.Refresh h c0)) ->
Item.IsValid h it = true /\ Item.GetName h it <> ""
/\ cachedTypeId it <> "audio_monitor"
/\ exists p o, weakSource it = Some p /\ objects h !! p = Some o
               /\ info_id o = Some (cachedTypeId it) /\ sourceClass it = class_of o.
Proof. apply snapshot_record_facts. Qed.

(** A record without a parent source name is one made by [AddSource]: it is
  not classified as a filter, its object is neither a filter nor a
  transition, its type tag neither contains "_wrapper_" nor is
  "audio_line", and its name does not contain "(Stinger)". *)
Theorem top_level_records_pass_the_exclusion_list (c0 : SourceCollection)
  (it : SourceItem) :
In it (sources (Collection.Refresh h c0)) -> parentSourceName it = "" ->
sourceClass it <> Filter
/\ ~ contains (cachedTypeId it) "_wrapper_" /\ cachedTypeId it <> "audio_line"
/\ ~ contains (Item.GetName h it) "(Stinger)"
/\ exists p o, weakSource it = Some p /\ objects h !! p = Some o
               /\ info_type o <> OBS_SOURCE_TYPE_FILTER
               /\ info_type o <> OBS_SOURCE_TYPE_TRANSITION.
Proof.
intros Hin. pattern it. revert it Hin. apply List.Forall_forall. apply Refresh_Forall.
- intros p o name typeId Ho Ha (Hf & Ht & Hn & Hne & Hid & Ham & Hw & Hs & Hal) _.
  rewrite (GetName_live h _ p o name); try (rewrite (new_live _ _ _ Ho)); auto.
  cbn [cachedTypeId weakSource sourceClass]. rewrite Hid, class_of_Filter.
  rewrite <- !strstr_not_found. eauto 10.
- intros pp po pname ptype p o name typeId _ _ (_ & _ & _ & Hne & _) _ Ho _ _ Hp.
  rewrite (new_live _ _ _ Ho) in Hp. cbn in Hp. contradiction.
- auto.
Qed.

Lemma string_lt_irrefl (a : string) : ~ string_lt a a.
Proof.
unfold string_lt. intros H. pose proof (String.compare_antisym a a) as E.
rewrite H in E. discriminate.
Qed.

Lemma string_lt_trans (a b c : string) : string_lt a b -> string_lt b c -> string_lt a c.
Proof.
unfold string_lt. intros Hab Hbc.
assert (Hac : String.compare a c <> Gt)
  by (apply (compare_not_gt_trans a b c); congruence).
destruct (String.compare a c) eqn:E; [|reflexivity|congruence].
apply String.compare_eq_iff in E. subst c.
rewrite String.compare_antisym, Hab in Hbc. discriminate.
Qed.

Lemma set_insert_hd (x y : string) (s : list string) :
string_lt y x -> HdRel string_lt y s -> HdRel string_lt y (set_insert x s).
Proof.
intros Hyx Hs. destruct s as [|z s]; simpl; [now constructor|].
inversion Hs; subst. destruct (String.compare x z); now constructor.
Qed.

Lemma set_insert_sorted (x : string) (s : list string) :
Sorted string_lt s -> Sorted string_lt (set_insert x s).
Proof.
induction 1 as [|y s Hs IH Hhd]; simpl; [repeat constructor|].
destruct (String.compare x y) eqn:E.
- now constructor.
- constructor; [now constructor|]. now constructor.
- constructor; [exact IH|]. apply set_insert_hd; [|exact Hhd].
  unfold string_lt. now rewrite String.compare_antisym, E.
Qed.

Lemma sorted_NoDup (s : list string) : Sorted string_lt s -> NoDup s.
Proof.
intros Hs. apply Sorted_StronglySorted in Hs; [|intros a b c; apply string_lt_trans].
induction Hs as [|a s Hs IH Ha]; constructor; [|exact IH].
intros Hin. rewrite List.Forall_forall in Ha. apply list_elem_of_In in Hin.
exact (string_lt_irrefl a (Ha a Hin)).
Qed.

(** The parent scenes of every record of a snapshot are kept strictly
  increasing in the byte-wise order, hence without repetition: a scene
  that holds the same source several times, or several scenes of one
  name, give one entry. *)
Theorem parent_scenes_are_a_set (c0 : SourceCollection) (it : SourceItem) :
In it (sources (Collection.Refresh h c0)) ->
Sorted string_lt (parentScenes it) /\ NoDup (parentScenes it).
Proof.
intros Hin. assert (Hs : Sorted string_lt (parentScenes it)).
{ revert it Hin. apply List.Forall_forall. apply Refresh_Forall.
  - intros p o name typeId Ho _ _. rewrite (new_live _ _ _ Ho). constructor.
  - intros pp po pname ptype p o name typeId _ _ _ _ Ho _ _.
    rewrite (new_live _ _ _ Ho). constructor.
  - intros sceneName x Hx. now apply set_insert_sorted. }
split; [exact Hs|now apply sorted_NoDup].
Qed.

Lemma filter_all {A : Type} (f : A -> bool) (l : list A) :
Forall (fun x => f x = true) l -> List.filter f l = l.
Proof. induction 1 as [|x l Hx _ IH]; simpl; [reflexivity|]. now rewrite Hx, IH. Qed.

(** With the search text empty and the type filter empty or "all", [Search]
  over a snapshot, against the host the snapshot was taken from, returns
  every record of the snapshot, each once. *)
Theorem unfiltered_Search_lists_the_snapshot (c0 : SourceCollection) :
Permutation (sources (Collection.Refresh h c0))
            (Collection.Search h (Collection.Refresh h c0) "" "all")
/\ Collection.Search h (Collection.Refresh h c0) "" ""
   = Collection.Search h (Collection.Refresh h c0) "" "all".
Proof.
split; [|reflexivity].
rewrite <- (Search_perm h). unfold survivors. rewrite filter_all; [reflexivity|].
apply List.Forall_forall. intros it Hin.
destruct (snapshot_record_facts c0 it Hin) as (-> & _). reflexivity.
Qed.

End SnapshotRecords.

(** ** The type catalog *)

Section Catalog.
Variable h : Host.

Lemma catalog_add (c : SourceCollection) (typeId : string) (uuid : option string)
  (item : SourceItem) :
catalog_exact h c -> cachedTypeId item = typeId ->
catalog_exact h (Collection.add_to_collections h typeId uuid item c).
Proof.
intros [Hkeys Hrecs] Hitem.
split; cbn [sources discoveredTypes Collection.add_to_collections].
- intros t v Hv. destruct (discoveredTypes c !! typeId) as [v0|] eqn:Hold.
  + destruct (Hkeys _ _ Hv) as (-> & it & Hin & Hit). split; [reflexivity|].
    exists it. rewrite in_app_iff. auto.
  + destruct (decide (typeId = t)) as [<-|Hne].
    * rewrite lookup_insert_eq in Hv. injection Hv as <-. split; [reflexivity|].
      exists item. rewrite in_app_iff. simpl. auto.
    * rewrite lookup_insert_ne in Hv by exact Hne.
      destruct (Hkeys _ _ Hv) as (-> & it & Hin & Hit). split; [reflexivity|].
      exists it. rewrite in_app_iff. auto.
- intros it Hin. apply in_app_iff in Hin. destruct Hin as [Hin|[<-|[]]].
  + pose proof (Hrecs _ Hin) as Hit.
    destruct (discoveredTypes c !! typeId) as [v0|] eqn:Hold; [exact Hit|].
    rewrite lookup_insert_ne; [exact Hit|]. intros E. rewrite <- E in Hit. congruence.
  + rewrite Hitem. destruct (discoveredTypes c !! typeId) as [v0|] eqn:Hold.
    * destruct (Hkeys _ _ Hold) as (-> & _). exact Hold.
    * apply lookup_insert_eq.
Qed.

Lemma alter_parent_back (l : list SourceItem) (i : nat) (sceneName : string)
  (it' : SourceItem) :
In it' (alter (Item.AddParentScene sceneName) i l) ->
exists it, In it l /\ same_record it it'.
Proof.
intros Hin. apply list_elem_of_In, list_elem_of_lookup_1 in Hin. destruct Hin as [j Hj].
rewrite list_lookup_alter in Hj. case_decide.
- subst j. destruct (l !! i) as [it|] eqn:Hi; [|discriminate]. injection Hj as <-.
  exists it. split; [|apply AddParentScene_frame].
  apply list_elem_of_In. eapply list_elem_of_lookup_2; eauto.
- exists it'. split; [|apply same_record_refl].
  apply list_elem_of_In. eapply list_elem_of_lookup_2; eauto.
Qed.

Lemma alter_parent_forth (l : list SourceItem) (i : nat) (sceneName : string)
  (it : SourceItem) :
In it l ->
exists it', In it' (alter (Item.AddParentScene sceneName) i l) /\ same_record it it'.
Proof.
intros Hin. apply list_elem_of_In, list_elem_of_lookup_1 in Hin. destruct Hin as [j Hj].
destruct (decide (i = j)) as [->|Hne].
- exists (Item.AddParentScene sceneName it). split; [|apply AddParentScene_frame].
  apply list_elem_of_In. apply (list_elem_of_lookup_2 _ j).
  now rewrite list_lookup_alter_eq, Hj.
- exists it. split; [|apply same_record_refl].
  apply list_elem_of_In. apply (list_elem_of_lookup_2 _ j).
  now rewrite list_lookup_alter_ne.
Qed.

Lemma catalog_update (c : SourceCollection) (i : nat) (sceneName : string) :
catalog_exact h c ->
catalog_exact h (Collection.update_item i (Item.AddParentScene sceneName) c).
Proof.
intros [Hkeys Hrecs]. split; cbn [sources discoveredTypes Collection.update_item].
- intros t v Hv. destruct (Hkeys _ _ Hv) as (-> & it & Hin & Hit). split; [reflexivity|].
  destruct (alter_parent_forth _ i sceneName _ Hin) as (it' & Hin' & _ & _ & _ & Ht).
  exists it'. split; [exact Hin'|congruence].
- intros it' Hin'.
  destruct (alter_parent_back _ _ _ _ Hin') as (it & Hin & _ & _ & _ & Ht).
  rewrite Ht. auto.
Qed.

Lemma catalog_InPass (c : SourceCollection) : InPass h c -> catalog_exact h c.
Proof.
induction 1 as [c|c source _ IH|c filter parentName _ IH|c sceneName itemSource _ IH].
- split; cbn; intros *; [rewrite lookup_empty; discriminate|intros []].
- destruct (AddSource_full h source c) as [->|(p & o & name & typeId & -> & Ho
    & (_ & _ & _ & _ & Hid & _) & _ & _ & ->)]; [exact IH|].
  apply catalog_add; [exact IH|]. rewrite (new_live _ _ _ Ho). cbn. now rewrite Hid.
- destruct (AddFilter_full h filter parentName c) as [->|(p & o & name & typeId & -> & Ho
    & (_ & _ & Hid & _) & _ & _ & ->)]; [exact IH|].
  apply catalog_add; [exact IH|]. rewrite (new_live _ _ _ Ho). cbn. now rewrite Hid.
- destruct (link_scene_item_cases h sceneName c itemSource) as [->|(u & i & _ & _ & ->)];
    [exact IH|]. now apply catalog_update.
Qed.

(** After [Refresh] the discovered types are exactly the type tags of the
  records of the snapshot, each with the display name that
  [GetTypeDisplayName] gives for it. *)
Theorem type_catalog_is_exact (c0 : SourceCollection) (typeId displayName : string) :
discoveredTypes (Collection.Refresh h c0) !! typeId = Some displayName <->
displayName = GetTypeDisplayName h typeId
/\ exists it, In it (sources (Collection.Refresh h c0)) /\ cachedTypeId it = typeId.
Proof.
destruct (catalog_InPass _ (InPass_Refresh h c0)) as [Hkeys Hrecs]. split.
- apply Hkeys.
- intros (-> & it & Hin & <-). now apply Hrecs.
Qed.

End Catalog.

(** ** Nothing recorded is lost; everything eligible is recorded *)

Section Completeness.
Variable h : Host.

Lemma persists_refl (c : SourceCollection) : persists c c.
Proof. intros i it Hit. exists it. split; [exact Hit|apply same_record_refl]. Qed.

Lemma persists_trans (c c' c'' : SourceCollection) :
persists c c' -> persists c' c'' -> persists c c''.
Proof.
intros H1 H2 i it Hit. destruct (H1 _ _ Hit) as (it' & Hit' & Hs1).
destruct (H2 _ _ Hit') as (it'' & Hit'' & Hs2). exists it''.
split; [exact Hit''|]. eapply same_record_trans; eauto.
Qed.

Lemma persists_add (c : SourceCollection) (typeId : string) (uuid : option string)
  (item : SourceItem) :
persists c (Collection.add_to_collections h typeId uuid item c).
Proof.
intros i it Hit. exists it. split; [|apply same_record_refl].
cbn [sources Collection.add_to_collections]. now apply lookup_app_l_Some.
Qed.

Lemma persists_linked (R : nat -> string -> Prop) (c c' : SourceCollection) :
linked R c c' -> persists c c'.
Proof.
intros (_ & _ & _ & Hfw) i it Hit. destruct (Hfw _ _ Hit) as (it' & Hit' & Hs & _). eauto.
Qed.

Lemma persists_AddSource (source : source_ptr) (c : SourceCollection) :
persists c (Collection.AddSource h source c).
Proof.
destruct (AddSource_full h source c) as [->|(p & o & name & typeId & _ & _ & _ & _ & _
  & ->)]; [apply persists_refl|apply persists_add].
Qed.

Lemma persists_AddFilter (filter : source_ptr) (parentName : string)
  (c : SourceCollection) :
persists c (Collection.AddFilter h filter parentName c).
Proof.
destruct (AddFilter_full h filter parentName c) as [->|(p & o & name & typeId & _ & _ & _
  & _ & _ & ->)]; [apply persists_refl|apply persists_add].
Qed.

Lemma persists_fold {B : Type} (f : SourceCollection -> B -> SourceCollection)
  (l : list B) (c : SourceCollection) :
(forall c' b, persists c' (f c' b)) -> persists c (fold_left f l c).
Proof.
intros Hstep. revert c. induction l as [|b l IH]; intros c; simpl; [apply persists_refl|].
eapply persists_trans; [apply Hstep|apply IH].
Qed.

Lemma persists_LinkFilters_item (c : SourceCollection) (item : SourceItem) :
persists c (Collection.LinkFilters_item h c item).
Proof.
unfold Collection.LinkFilters_item.
destruct (Item.GetSource h item) as [p|]; [|apply persists_refl].
destruct (deref h (Some p)) as [o|]; [|apply persists_refl].
apply persists_fold. intros. apply persists_AddFilter.
Qed.

Lemma persists_LinkFilters (c : SourceCollection) :
persists c (Collection.LinkFilters h c).
Proof. apply persists_fold. intros. apply persists_LinkFilters_item. Qed.

Lemma persists_LinkSceneItems (c : SourceCollection) :
persists c (Collection.LinkSceneItems h c).
Proof. eapply persists_linked. apply LinkSceneItems_linked. Qed.

Lemma represented_persists (p : nat) (o : obs_source) (c c' : SourceCollection) :
persists c c' -> represented h p o c -> represented h p o c'.
Proof.
intros Hp (it & Hin & Hrep).
apply list_elem_of_In, list_elem_of_lookup_1 in Hin. destruct Hin as [i Hit].
destruct (Hp _ _ Hit) as (it' & Hit' & Hw & _). exists it'.
split; [apply list_elem_of_In; eapply list_elem_of_lookup_2; eauto|].
destruct (context_uuid o); [|congruence].
now rewrite (reported_uuid_weakSource h _ _ Hw).
Qed.

Lemma represented_when_recorded (p : nat) (o : obs_source) (c : SourceCollection) :
Inv h c -> Collection.uuid_recorded (context_uuid o) c = true -> represented h p o c.
Proof.
intros [Hlook _ _] Hrec. unfold Collection.uuid_recorded in Hrec.
destruct (context_uuid o) as [u|] eqn:Hu; [|discriminate].
destruct (sourcesByUUID c !! u) as [i|] eqn:Hi; [|discriminate].
destruct (Hlook _ _ Hi) as (it & Hit & Hitu). exists it. rewrite Hu.
split; [|exact Hitu]. apply list_elem_of_In. eapply list_elem_of_lookup_2; eauto.
Qed.

Lemma represented_when_added (p : nat) (o : obs_source) (typeId : string)
  (item : SourceItem) (c : SourceCollection) :
weakSource item = Some p -> objects h !! p = Some o -> alive o = true ->
represented h p o (Collection.add_to_collections h typeId (context_uuid o) item c).
Proof.
intros Hw Ho Ha. exists item. cbn [sources Collection.add_to_collections].
split; [rewrite in_app_iff; simpl; auto|].
rewrite <- (reported_uuid_live h item p o Hw Ho Ha).
destruct (reported_uuid h item); [reflexivity|exact Hw].
Qed.

Lemma fold_left_reaches {A B : Type} (Pre E : A -> Prop) (f : A -> B -> A)
  (l : list B) (b : B) (a : A) :
In b l ->
(forall a b', Pre a -> Pre (f a b')) ->
(forall a, Pre a -> E (f a b)) ->
(forall a b', Pre a -> E a -> E (f a b')) ->
Pre a -> E (fold_left f l a).
Proof.
intros Hin Hpre Hhit Hkeep Ha. apply in_split in Hin. destruct Hin as (l1 & l2 & ->).
rewrite fold_left_app. cbn [fold_left].
assert (H1 : Pre (fold_left f l1 a)).
{ apply (fold_left_preserves Pre (fun _ => True)); auto. now apply Forall_forall. }
assert (H2 : Pre (f (fold_left f l1 a) b) /\ E (f (fold_left f l1 a) b)) by auto.
apply (fold_left_preserves (fun a => Pre a /\ E a) (fun _ => True));
  [|now apply Forall_forall|exact H2].
intros a' b' [Hp He] _. auto.
Qed.

Lemma AddSource_represents (p : nat) (o : obs_source) (name typeId : string)
  (c : SourceCollection) :
objects h !! p = Some o -> alive o = true -> source_eligible o name typeId ->
InPass h c -> represented h p o (Collection.AddSource h (Some p) c).
Proof.
intros Ho Ha He Hc.
destruct (Collection.uuid_recorded (context_uuid o) c) eqn:Hrec.
- apply (represented_persists p o c); [apply persists_AddSource|].
  apply represented_when_recorded; [now apply InPass_Inv|exact Hrec].
- rewrite (AddSource_accepts h p o name typeId c Ho He Hrec Ha).
  apply represented_when_added; auto. now rewrite (new_live _ _ _ Ho).
Qed.

Lemma AddFilter_represents (p : nat) (o : obs_source) (name typeId parentName : string)
  (c : SourceCollection) :
objects h !! p = Some o -> alive o = true -> filter_eligible o name typeId ->
InPass h c -> represented h p o (Collection.AddFilter h (Some p) parentName c).
Proof.
intros Ho Ha (Hn & Hne & Hid & Ham) Hc.
destruct (Collection.uuid_recorded (context_uuid o) c) eqn:Hrec.
- apply (represented_persists p o c); [apply persists_AddFilter|].
  apply represented_when_recorded; [now apply InPass_Inv|exact Hrec].
- rewrite (AddFilter_accepts h (Some p) parentName c o name typeId); auto.
  apply represented_when_added; auto. now rewrite (new_live _ _ _ Ho).
Qed.

Lemma EnumAllSources_represents (c0 : SourceCollection) (p : nat) (o : obs_source)
  (name typeId : string) :
In (Some p) (all_sources h) ->
objects h !! p = Some o -> alive o = true -> source_eligible o name typeId ->
represented h p o (Collection.EnumAllSources h (Collection.Clear c0)).
Proof.
intros Hin Ho Ha He. unfold Collection.EnumAllSources.
apply (fold_left_reaches (InPass h) (represented h p o)
         (fun c source => Collection.AddSource h source c) _ (Some p)); auto.
- intros. now constructor.
- intros. eapply AddSource_represents; eauto.
- intros a b' _ Hr. eapply represented_persists; [apply persists_AddSource|exact Hr].
- constructor.
Qed.

(** Every source that [obs_enum_all_sources] yields and that passes the
  tests of [AddSource] is represented in the snapshot: by a record of its
  uuid, or of the object itself when the host reports no uuid for it. *)
Theorem eligible_sources_are_represented (c0 : SourceCollection) (p : nat)
  (o : obs_source) (name typeId : string) :
In (Some p) (all_sources h) ->
objects h !! p = Some o -> alive o = true -> source_eligible o name typeId ->
represented h p o (Collection.Refresh h c0).
Proof.
intros Hin Ho Ha He. unfold Collection.Refresh.
eapply represented_persists; [apply persists_LinkSceneItems|].
eapply represented_persists; [apply persists_LinkFilters|].
eapply EnumAllSources_represents; eauto.
Qed.

Lemma represented_by_itself (p : nat) (o : obs_source) (c : SourceCollection) :
uuids_are_unique h -> Inv h c -> objects h !! p = Some o ->
represented h p o c -> exists it, In it (sources c) /\ weakSource it = Some p.
Proof.
intros Huniq [_ _ Hlive] Ho (it & Hin & Hrep). exists it. split; [exact Hin|].
destruct (context_uuid o) as [u|] eqn:Hu; [|exact Hrep].
pose proof Hin as Hin'.
apply list_elem_of_In, list_elem_of_lookup_1 in Hin'. destruct Hin' as [i Hit].
destruct (Hlive _ _ Hit) as (q & oq & Hw & Hoq & Ha & _).
rewrite (reported_uuid_live h _ _ _ Hw Hoq Ha) in Hrep.
rewrite Hw. f_equal. eapply Huniq; eauto.
Qed.

(** In a host that reports no uuid twice, every filter that passes the
  tests of [AddFilter] and sits on a source that passes the tests of
  [AddSource] is represented in the snapshot. *)
Theorem eligible_filters_are_represented (c0 : SourceCollection)
  (pp : nat) (po : obs_source) (pname ptype : string)
  (p : nat) (o : obs_source) (name typeId : string) :
uuids_are_unique h ->
In (Some pp) (all_sources h) ->
objects h !! pp = Some po -> alive po = true -> source_eligible po pname ptype ->
In (Some p) (filters po) ->
objects h !! p = Some o -> alive o = true -> filter_eligible o name typeId ->
represented h p o (Collection.Refresh h c0).
Proof.
intros Huniq Hin Hpo Hpa Hpe Hf Ho Ha He. unfold Collection.Refresh.
eapply represented_persists; [apply persists_LinkSceneItems|].
set (c1 := Collection.EnumAllSources h (Collection.Clear c0)).
assert (Hc1 : InPass h c1) by (apply InPass_EnumAllSources; constructor).
destruct (represented_by_itself pp po c1 Huniq (InPass_Inv h _ Hc1) Hpo)
  as (parent & Hparent & Hw).
{ eapply EnumAllSources_represents; eauto. }
unfold Collection.LinkFilters.
apply (fold_left_reaches (InPass h) (represented h p o)
         (Collection.LinkFilters_item h) _ parent); auto.
- intros. now apply InPass_LinkFilters_item.
- intros c Hc. unfold Collection.LinkFilters_item.
  rewrite (GetSource_live h parent pp po Hw Hpo Hpa). cbn [deref]. rewrite Hpo.
  apply (fold_left_reaches (InPass h) (represented h p o)
           (fun c filter => Collection.AddFilter h filter (Item.GetName h parent) c)
           _ (Some p)); auto.
  + intros. now constructor.
  + intros. eapply AddFilter_represents; eauto.
  + intros a b' _ Hr. eapply represented_persists; [apply persists_AddFilter|exact Hr].
- intros a b' _ Hr.
  eapply represented_persists; [apply persists_LinkFilters_item|exact Hr].
Qed.

(** [LinkSceneItems] changes nothing but sets of parent scenes, and those
  only grow: both maps, the number of records and, at every position, the
  object, class, type tag and parent source name of the record stay as
  they are; every name added is the raw name of a scene or group record of
  the collection. *)
Theorem LinkSceneItems_only_adds_parents (c : SourceCollection) :
sourcesByUUID (Collection.LinkSceneItems h c) = sourcesByUUID c
/\ discoveredTypes (Collection.LinkSceneItems h c) = discoveredTypes c
/\ length (sources (Collection.LinkSceneItems h c)) = length (sources c)
/\ forall i it,
     sources c !! i = Some it ->
     exists it',
       sources (Collection.LinkSceneItems h c) !! i = Some it'
       /\ same_record it it'
       /\ incl (parentScenes it) (parentScenes it')
       /\ forall x, In x (parentScenes it') -> ~ In x (parentScenes it) ->
                    exists sc, In sc (sources c)
                               /\ (Item.IsScene sc || Item.IsGroup sc = true)
                               /\ x = Item.GetName h sc.
Proof.
destruct (LinkSceneItems_linked h c) as (Hu & Hd & Hl & Hfw).
repeat split; auto. intros i it Hit.
destruct (Hfw _ _ Hit) as (it' & Hit' & Hs & Hx). exists it'.
split; [exact Hit'|]. split; [exact Hs|]. split.
- intros x Hin. apply Hx. now left.
- intros x Hin Hnot. apply Hx in Hin.
  destruct Hin as [Hin|(j & sc & u & Hsc & (Hk & _) & _ & ->)]; [contradiction|].
  exists sc. split; [|auto]. apply list_elem_of_In. eapply list_elem_of_lookup_2; eauto.
Qed.

End Completeness.

(** * Names and rows *)

(** ** Display names *)

Section Names.
Variable h : Host.

Lemma map_find_In (k v : string) (m : list (string * string)) :
map_find k m = Some v -> In (k, v) m.
Proof.
induction m as [|[k' v'] m IH]; simpl; [discriminate|].
destruct (String.eqb_spec k k') as [->|Hne].
- intros [= ->]. now left.
- intros Hf. right. auto.
Qed.

Lemma In_map_find (k : string) (m : list (string * string)) :
In k (map fst m) -> exists v, map_find k m = Some v.
Proof.
induction m as [|[k' v'] m IH]; simpl; [intros []|].
destruct (String.eqb_spec k k') as [->|Hne]; [eauto|].
intros [E|Hin]; [congruence|auto].
Qed.

Lemma SOURCE_TYPE_NAMES_not_empty :
Forall (fun kv => snd kv <> "") SOURCE_TYPE_NAMES.
Proof. unfold SOURCE_TYPE_NAMES. repeat constructor; discriminate. Qed.

(** The display name of a type is never empty when the type tag is not;
  and for a tag of the built-in table it is the table's name, whatever the
  host registers for the tag. *)
Theorem GetTypeDisplayName_not_empty (typeId : string) :
typeId <> "" ->
GetTypeDisplayName h typeId <> ""
/\ (In typeId (map fst SOURCE_TYPE_NAMES) ->
    forall h', GetTypeDisplayName h' typeId = GetTypeDisplayName h typeId).
Proof.
intros Hne. split.
- unfold GetTypeDisplayName. destruct (map_find typeId SOURCE_TYPE_NAMES) as [v|] eqn:Hf.
  + apply map_find_In in Hf. pose proof SOURCE_TYPE_NAMES_not_empty as Hall.
    rewrite List.Forall_forall in Hall. exact (Hall _ Hf).
  + destruct (obs_source_get_display_name h typeId) as [d|]; [|exact Hne].
    destruct d; simpl; [exact Hne|discriminate].
- intros Hin h'. destruct (In_map_find _ _ Hin) as [v Hv].
  unfold GetTypeDisplayName. now rewrite Hv.
Qed.

Lemma GetName_resolves (it : SourceItem) :
Item.GetName h it <> "" -> exists p, Item.GetSource h it = Some p.
Proof. unfold Item.GetName. destruct (Item.GetSource h it); [eauto|congruence]. Qed.

(** The canvas annotation: the display name of a scene record with a
  non-empty name is the name preceded by "(H) " when the scene's object is
  in the frontend's scene list and by "(V) " when it is not; every other
  record, and every record whose name is empty, is displayed under its raw
  name. *)
Theorem canvas_annotation (it : SourceItem) :
(Item.IsScene it = false \/ Item.GetName h it = "" ->
 Item.GetDisplayName h it = Item.GetName h it)
/\ (Item.IsScene it = true -> Item.GetName h it <> "" ->
    exists p, Item.GetSource h it = Some p
              /\ (In p (frontend_scenes h) ->
                  Item.GetDisplayName h it = "(H) " +:+ Item.GetName h it)
              /\ (~ In p (frontend_scenes h) ->
                  Item.GetDisplayName h it = "(V) " +:+ Item.GetName h it)).
Proof.
unfold Item.GetDisplayName. split.
- intros [Hs|Hn]; [rewrite Hs|rewrite Hn]; [|reflexivity].
  now destruct (Item.GetName h it).
- intros Hs Hn. destruct (GetName_resolves it Hn) as [p Hp]. exists p.
  split; [exact Hp|]. unfold Item.IsVerticalCanvas. rewrite Hs, Hp. cbn [negb].
  destruct (Item.GetName h it) as [|a s] eqn:E; [congruence|].
  destruct (existsb (Nat.eqb p) (frontend_scenes h)) eqn:Hex; cbn [negb]; split;
    try reflexivity; intros Hin; exfalso.
  + apply existsb_exists in Hex. destruct Hex as (q & Hq & Hpq).
    apply Nat.eqb_eq in Hpq. subst q. contradiction.
  + assert (existsb (Nat.eqb p) (frontend_scenes h) = true); [|congruence].
    apply existsb_exists. exists p. split; [exact Hin|apply Nat.eqb_refl].
Qed.

(** A record whose object no longer resolves answers every accessor with
  the empty string, is never on the vertical canvas, and passes the text
  filter for the empty search text only. *)
Theorem stale_record_accessors (it : SourceItem) :
Item.IsValid h it = false ->
Item.GetName h it = "" /\ Item.GetDisplayName h it = "" /\ Item.GetUUID h it = ""
/\ Item.IsVerticalCanvas h it = false
/\ forall searchText, Item.MatchesSearch h it searchText = true <-> searchText = "".
Proof.
intros Hv. unfold Item.IsValid in Hv.
destruct (Item.GetSource h it) as [p|] eqn:Hp; [discriminate|].
assert (Hn : Item.GetName h it = "") by (unfold Item.GetName; now rewrite Hp).
repeat split.
- exact Hn.
- unfold Item.GetDisplayName. now rewrite Hn.
- unfold Item.GetUUID. now rewrite Hp.
- unfold Item.IsVerticalCanvas. rewrite Hp. now destruct (negb (Item.IsScene it)).
- unfold Item.MatchesSearch. rewrite Hn. destruct searchText; [reflexivity|discriminate].
- intros ->. reflexivity.
Qed.

End Names.

(** ** The rows of the result list *)

Section Rows.
Variable h : Host.

Lemma append_assoc (a b c : string) : (a +:+ b) +:+ c = a +:+ (b +:+ c).
Proof.
induction a as [|x a IH]; [reflexivity|].
change (String x ((a +:+ b) +:+ c) = String x (a +:+ (b +:+ c))). now rewrite IH.
Qed.

Lemma contains_ci_empty (hay : string) : contains_ci hay "".
Proof. exists "", "", hay. split; reflexivity. Qed.

Lemma contains_ci_app_l (a b needle : string) :
contains_ci b needle -> contains_ci (a +:+ b) needle.
Proof.
intros (pre & mid & post & -> & Hl). exists (a +:+ pre), mid, post.
split; [|exact Hl]. now rewrite append_assoc.
Qed.

Lemma contains_ci_app_r (a b needle : string) :
contains_ci a needle -> contains_ci (a +:+ b) needle.
Proof.
intros (pre & mid & post & -> & Hl). exists pre, mid, (post +:+ b).
split; [|exact Hl]. now rewrite !append_assoc.
Qed.

Lemma GetDisplayName_contains (it : SourceItem) (needle : string) :
contains_ci (Item.GetName h it) needle ->
contains_ci (Item.GetDisplayName h it) needle.
Proof.
intros Hc. unfold Item.GetDisplayName.
destruct (Item.GetName h it) as [|a s]; [exact Hc|].
destruct (Item.IsScene it); [|exact Hc]. now apply contains_ci_app_l.
Qed.

Lemma displayText_contains (it : SourceItem) (needle : string) :
contains_ci (Item.GetName h it) needle -> contains_ci (Dock.displayText h it) needle.
Proof.
intros Hc. apply GetDisplayName_contains in Hc. unfold Dock.displayText.
assert (H1 : contains_ci (Item.GetDisplayName h it +:+ " ["
                          +:+ Item.GetTypeDisplayName h it +:+ "]") needle)
  by now apply contains_ci_app_r.
destruct (Item.IsFilter it).
- destruct (parentSourceName it); [exact H1|now apply contains_ci_app_r].
- destruct (parentScenes it); [exact H1|now apply contains_ci_app_r].
Qed.

Lemma UpdateResults_In (c : SourceCollection) (searchText typeFilter scope : string)
  (row : string * SourceItem) :
In row (Dock.UpdateResults h c searchText typeFilter scope) <->
fst row = Dock.displayText h (snd row)
/\ In (snd row) (Collection.Search h c searchText typeFilter)
/\ Dock.shown scope (snd row) = true.
Proof.
unfold Dock.UpdateResults. rewrite in_map_iff. split.
- intros (it & <- & Hin). apply filter_In in Hin. simpl. tauto.
- intros (Ht & Hin & Hs). exists (snd row). rewrite filter_In.
  split; [|tauto]. destruct row as [t it]. simpl in *. congruence.
Qed.

(** Every row of the result list shows the search text: the text of the
  row contains the search text up to the case of letters. *)
Theorem rows_contain_the_search_text (c : SourceCollection)
  (searchText typeFilter scope : string) (row : string * SourceItem) :
In row (Dock.UpdateResults h c searchText typeFilter scope) ->
contains_ci (fst row) searchText.
Proof.
intros Hin. apply UpdateResults_In in Hin. destruct Hin as (-> & Hin & _).
apply Search_In in Hin. destruct Hin as (_ & _ & _ & Hm).
apply MatchesSearch_spec in Hm. destruct Hm as [->|Hc].
- apply contains_ci_empty.
- now apply displayText_contains.
Qed.

Lemma shown_scopes (scope : string) (it : SourceItem) :
Dock.shown "sources" it = Dock.shown "all" it && negb (Item.IsFilter it)
/\ Dock.shown "filters" it = Dock.shown "all" it && Item.IsFilter it
/\ (scope <> "sources" -> scope <> "filters" ->
    Dock.shown scope it = Dock.shown "all" it).
Proof.
unfold Dock.shown. repeat split.
- cbn [String.eqb Ascii.eqb Bool.eqb andb].
  destruct (Item.IsFilter it), (Item.IsScene it), (Item.IsGroup it),
    (parentScenes it); reflexivity.
- cbn [String.eqb Ascii.eqb Bool.eqb andb].
  destruct (Item.IsFilter it), (Item.IsScene it), (Item.IsGroup it),
    (parentScenes it); reflexivity.
- intros H1 H2. apply String.eqb_neq in H1, H2. now rewrite H1, H2.
Qed.

Lemma filter_filter {A : Type} (f g : A -> bool) (l : list A) :
List.filter g (List.filter f l) = List.filter (fun x => f x && g x) l.
Proof.
induction l as [|x l IH]; simpl; [reflexivity|].
destruct (f x); simpl; [destruct (g x)|]; now rewrite IH.
Qed.

(** The scope is a partition of the rows: the rows for "sources" are the
  rows for "all" whose record is not a filter, the rows for "filters" are
  those whose record is a filter, in the same order; the two counts add up
  to the count for "all"; and every scope other than "sources" and
  "filters" shows what "all" shows. *)
Theorem scope_partitions_the_rows (c : SourceCollection)
  (searchText typeFilter scope : string) :
let rows := Dock.UpdateResults h c searchText typeFilter in
rows "sources" = List.filter (fun row => negb (Item.IsFilter (snd row))) (rows "all")
/\ rows "filters" = List.filter (fun row => Item.IsFilter (snd row)) (rows "all")
/\ length (rows "sources") + length (rows "filters") = length (rows "all")
/\ (scope <> "sources" -> scope <> "filters" -> rows scope = rows "all").
Proof.
cbn zeta.
assert (Hs : Dock.UpdateResults h c searchText typeFilter "sources"
             = List.filter (fun row => negb (Item.IsFilter (snd row)))
                 (Dock.UpdateResults h c searchText typeFilter "all")).
{ unfold Dock.UpdateResults. rewrite filter_map_swap, filter_filter. f_equal.
  apply filter_ext. intros it. apply shown_scopes. exact "". }
assert (Hf : Dock.UpdateResults h c searchText typeFilter "filters"
             = List.filter (fun row => Item.IsFilter (snd row))
                 (Dock.UpdateResults h c searchText typeFilter "all")).
{ unfold Dock.UpdateResults. rewrite filter_map_swap, filter_filter. f_equal.
  apply filter_ext. intros it. apply (shown_scopes ""). }
split; [exact Hs|]. split; [exact Hf|]. split.
- rewrite Hs, Hf, Nat.add_comm. apply List.filter_length.
- intros H1 H2. unfold Dock.UpdateResults. f_equal. apply filter_ext. intros it.
  now apply shown_scopes.
Qed.

Lemma StronglySorted_filter {A : Type} (R : A -> A -> Prop) (f : A -> bool) (l : list A) :
StronglySorted R l -> StronglySorted R (List.filter f l).
Proof.
induction 1 as [|x l Hs IH Hx]; simpl; [constructor|].
destruct (f x); [|exact IH]. constructor; [exact IH|].
rewrite List.Forall_forall in *. intros y Hy. apply filter_In in Hy. apply Hx, Hy.
Qed.

Lemma Search_StronglySorted (c : SourceCollection) (searchText typeFilter : string) :
StronglySorted (fun a b => not_after (Item.GetName h a) (Item.GetName h b))
               (Collection.Search h c searchText typeFilter).
Proof.
rewrite Search_unfold. apply Sorted_StronglySorted.
- intros x y z. apply not_after_trans.
- apply (std_sort_sorted (by_name h)). intros a b. apply ltb_asym.
Qed.

(** The rows follow the order of [Search]: their records are ordered by raw
  name, each is a record of the collection that resolves and passes both
  filters, and the text of a row is the display text of its record. *)
Theorem rows_are_ordered_results (c : SourceCollection)
  (searchText typeFilter scope : string) :
ordered_by (Item.GetName h)
           (map snd (Dock.UpdateResults h c searchText typeFilter scope))
/\ forall row,
     In row (Dock.UpdateResults h c searchText typeFilter scope) ->
     fst row = Dock.displayText h (snd row)
     /\ In (snd row) (sources c) /\ Item.IsValid h (snd row) = true
     /\ Item.MatchesType (snd row) typeFilter = true.
Proof.
split.
- unfold Dock.UpdateResults. rewrite map_map. cbn [snd]. rewrite map_id.
  apply StronglySorted_filter. apply Search_StronglySorted.
- intros row Hin. apply UpdateResults_In in Hin. destruct Hin as (Ht & Hin & _).
  apply Search_In in Hin. tauto.
Qed.

End Rows.

(** * The dock *)

Section TypeBox.
Variable fe : SearchDock.Frontend.

Lemma find_from_spec (data : string) (items : list (string * string)) (i : Z) :
(Qt.find_from data items i = (-1)%Z /\ forall t d, In (t, d) items -> d <> data)
\/ exists k t, Qt.find_from data items i = (i + Z.of_nat k)%Z
               /\ items !! k = Some (t, data).
Proof.
revert i. induction items as [|[t d] items IH]; intros i; simpl.
- left. split; [reflexivity|]. intros ? ? [].
- destruct (String.eqb_spec d data) as [->|Hne].
  + right. exists 0, t. split; [lia|reflexivity].
  + destruct (IH (i + 1)%Z) as [[Hf Hall]|(k & t' & Hf & Hk)].
    * left. split; [exact Hf|]. intros t' d' [E|Hin]; [congruence|eauto].
    * right. exists (S k), t'. split; [lia|exact Hk].
Qed.

Lemma addItem_fold (l : list (string * string)) (box : Qt.QComboBox) :
Qt.combo_items
  (fold_left (fun box entry => Qt.addItem (snd entry) (fst entry) box) l box)
= (Qt.combo_items box ++ map (fun e => (snd e, fst e)) l)%list.
Proof.
revert box. induction l as [|e l IH]; intros box; simpl.
- now rewrite app_nil_r.
- rewrite IH. cbn [Qt.combo_items Qt.addItem]. now rewrite <- app_assoc.
Qed.

Lemma sortedTypes_perm (c : SourceCollection) :
Permutation (map_to_list (discoveredTypes c)) (SearchDock.sortedTypes c).
Proof.
unfold SearchDock.sortedTypes, SearchDock.map_entries.
rewrite <- !std_sort_perm. reflexivity.
Qed.

Lemma sortedTypes_sorted (c : SourceCollection) :
StronglySorted (fun a b => not_after (snd a) (snd b)) (SearchDock.sortedTypes c).
Proof.
unfold SearchDock.sortedTypes. apply Sorted_StronglySorted.
- intros x y z. apply not_after_trans.
- apply (std_sort_sorted (fun a b : string * string => String.ltb (snd a) (snd b))).
  intros a b. apply ltb_asym.
Qed.

Lemma sortedTypes_lookup (c : SourceCollection) (typeId displayName : string) :
In (typeId, displayName) (SearchDock.sortedTypes c) <->
discoveredTypes c !! typeId = Some displayName.
Proof.
rewrite <- elem_of_map_to_list, list_elem_of_In. split; apply Permutation_in.
- symmetry. apply sortedTypes_perm.
- apply sortedTypes_perm.
Qed.

Lemma type_box_items (d : SearchDock.State) :
Qt.combo_items (SearchDock.typeFilter (SearchDock.UpdateTypeFilter fe d))
= (SearchDock.obs_module_text fe "AllTypes", "all")
    :: map (fun e => (snd e, fst e)) (SearchDock.sortedTypes (SearchDock.sourceCollection d)).
Proof.
unfold SearchDock.UpdateTypeFilter. cbn [SearchDock.typeFilter].
destruct (0 <=? _)%Z; cbn [Qt.combo_items Qt.setCurrentIndex];
  now rewrite addItem_fold.
Qed.

Lemma type_box_member (c : SourceCollection) (k : nat) (t data : string) :
((SearchDock.obs_module_text fe "AllTypes", "all")
   :: map (fun e => (snd e, fst e)) (SearchDock.sortedTypes c)) !! k = Some (t, data) ->
data = "all" \/ discoveredTypes c !! data = Some t.
Proof.
destruct k as [|k]; simpl.
- intros [= _ <-]. now left.
- intros Hk. right. apply sortedTypes_lookup.
  apply list_elem_of_lookup_2, list_elem_of_In, in_map_iff in Hk.
  destruct Hk as ([id name] & [= <- <-] & Hin). exact Hin.
Qed.

Lemma type_box_selection (d : SearchDock.State) :
let index :=
  Qt.find_from (SearchDock.currentTypeFilter d)
    ((SearchDock.obs_module_text fe "AllTypes", "all")
       :: map (fun e => (snd e, fst e))
            (SearchDock.sortedTypes (SearchDock.sourceCollection d))) 0 in
SearchDock.currentTypeFilter (SearchDock.UpdateTypeFilter fe d)
= if (0 <=? index)%Z then SearchDock.currentTypeFilter d else "all".
Proof.
cbn zeta. pose proof (type_box_items d) as Hitems.
unfold SearchDock.UpdateTypeFilter in *.
cbn [SearchDock.typeFilter SearchDock.currentTypeFilter] in *.
set (box := fold_left _ _ _) in *. unfold Qt.findData.
assert (Hbox : Qt.combo_items box
               = (SearchDock.obs_module_text fe "AllTypes", "all")
                   :: map (fun e => (snd e, fst e))
                        (SearchDock.sortedTypes (SearchDock.sourceCollection d))).
{ destruct (0 <=? _)%Z; exact Hitems. }
now rewrite Hbox.
Qed.

Lemma UpdateTypeFilter_restores_the_selection_aux (d : SearchDock.State) :
(SearchDock.currentTypeFilter d = "all"
 \/ is_Some (discoveredTypes (SearchDock.sourceCollection d)
               !! SearchDock.currentTypeFilter d) ->
 SearchDock.currentTypeFilter (SearchDock.UpdateTypeFilter fe d)
 = SearchDock.currentTypeFilter d)
/\ (SearchDock.currentTypeFilter d <> "all" ->
    discoveredTypes (SearchDock.sourceCollection d) !! SearchDock.currentTypeFilter d
    = None ->
    SearchDock.currentTypeFilter (SearchDock.UpdateTypeFilter fe d) = "all").
Proof.
rewrite type_box_selection.
destruct (find_from_spec (SearchDock.currentTypeFilter d)
            ((SearchDock.obs_module_text fe "AllTypes", "all")
               :: map (fun e => (snd e, fst e))
                    (SearchDock.sortedTypes (SearchDock.sourceCollection d))) 0)
  as [[-> Hall]|(k & t & -> & Hk)].
- cbn [Z.leb Z.compare]. split; [|reflexivity].
  intros [Hsel|[v Hv]]; exfalso.
  + apply (Hall (SearchDock.obs_module_text fe "AllTypes") "all"); [now left|auto].
  + apply sortedTypes_lookup in Hv.
    apply (Hall v (SearchDock.currentTypeFilter d)); [|reflexivity].
    right. apply in_map_iff. exists (SearchDock.currentTypeFilter d, v). auto.
- replace (0 <=? 0 + Z.of_nat k)%Z with true by (symmetry; apply Z.leb_le; lia).
  split; [reflexivity|].
  intros Hne Hnone. destruct (type_box_member _ _ _ _ Hk) as [E|E]; congruence.
Qed.

(** [UpdateTypeFilter] fills the type box with the "all" item followed by
  the discovered types, sorted by display name; it keeps the type filter
  in force when that is "all" or a discovered type and resets it to "all"
  otherwise; and the item it makes current carries the type filter in
  force. *)
Theorem UpdateTypeFilter_restores_the_selection (d : SearchDock.State) :
let d' := SearchDock.UpdateTypeFilter fe d in
let types := discoveredTypes (SearchDock.sourceCollection d) in
(exists sorted,
    Qt.combo_items (SearchDock.typeFilter d')
    = (SearchDock.obs_module_text fe "AllTypes", "all")
        :: map (fun e => (snd e, fst e)) sorted
    /\ Permutation (map_to_list types) sorted
    /\ StronglySorted (fun a b => not_after (snd a) (snd b)) sorted)
/\ (SearchDock.currentTypeFilter d = "all"
    \/ is_Some (types !! SearchDock.currentTypeFilter d) ->
    SearchDock.currentTypeFilter d' = SearchDock.currentTypeFilter d)
/\ (SearchDock.currentTypeFilter d <> "all" ->
    types !! SearchDock.currentTypeFilter d = None ->
    SearchDock.currentTypeFilter d' = "all")
/\ Qt.itemData (Qt.currentIndex (SearchDock.typeFilter d')) (SearchDock.typeFilter d')
   = SearchDock.currentTypeFilter d'.
Proof.
cbn zeta. split.
{ exists (SearchDock.sortedTypes (SearchDock.sourceCollection d)).
  split; [apply type_box_items|]. split; [apply sortedTypes_perm|apply sortedTypes_sorted]. }
pose proof (type_box_items d) as Hitems.
unfold SearchDock.UpdateTypeFilter in *.
cbn [SearchDock.typeFilter SearchDock.currentTypeFilter] in *.
set (box := fold_left _ _ _) in *.
assert (Hbox : Qt.combo_items box
               = (SearchDock.obs_module_text fe "AllTypes", "all")
                   :: map (fun e => (snd e, fst e))
                        (SearchDock.sortedTypes (SearchDock.sourceCollection d))).
{ destruct (0 <=? _)%Z; exact Hitems. }
clear Hitems. unfold Qt.findData. rewrite Hbox.
destruct (find_from_spec (SearchDock.currentTypeFilter d)
            ((SearchDock.obs_module_text fe "AllTypes", "all")
               :: map (fun e => (snd e, fst e))
                    (SearchDock.sortedTypes (SearchDock.sourceCollection d))) 0)
  as [[-> Hall]|(k & t & -> & Hk)].
- cbn [Z.leb Z.compare]. repeat split.
  + intros [Hsel|[v Hv]]; exfalso.
    * apply (Hall (SearchDock.obs_module_text fe "AllTypes") "all"); [now left|auto].
    * apply sortedTypes_lookup in Hv.
      apply (Hall v (SearchDock.currentTypeFilter d)); [|reflexivity].
      right. apply in_map_iff. exists (SearchDock.currentTypeFilter d, v). auto.
  + unfold Qt.itemData. cbn [Qt.currentIndex Qt.setCurrentIndex Qt.combo_items].
    rewrite Hbox. reflexivity.
- replace (0 <=? 0 + Z.of_nat k)%Z with true by (symmetry; apply Z.leb_le; lia).
  repeat split.
  + intros Hne Hnone. destruct (type_box_member _ _ _ _ Hk) as [E|E]; congruence.
  + unfold Qt.itemData. cbn [Qt.currentIndex Qt.setCurrentIndex Qt.combo_items].
    replace (0 + Z.of_nat k <? 0)%Z with false by (symmetry; apply Z.ltb_ge; lia).
    rewrite Hbox. replace (Z.to_nat (0 + Z.of_nat k)) with k by lia. now rewrite Hk.
Qed.

End TypeBox.

Section DockStates.
Variable fe : SearchDock.Frontend.

Lemma UpdateResults_no_records (h : Host) (c : SourceCollection)
  (searchText typeFilter scope : string) :
sources c = [] -> Dock.UpdateResults h c searchText typeFilter scope = [].
Proof.
intros Hc. unfold Dock.UpdateResults, Collection.Search. now rewrite Hc.
Qed.

Lemma OnSourcesChanged_initialized (h : Host) (d : SearchDock.State) :
SearchDock.initialized (SearchDock.OnSourcesChanged h fe d) = SearchDock.initialized d.
Proof. reflexivity. Qed.

(** Lazy loading: as long as the dock has not been shown, whatever
  handlers have run, nothing has been loaded from the host: the collection
  is empty, the result list and the type box have no entry, the refresh
  timer is idle and no start of it is queued. *)
Theorem nothing_is_loaded_before_the_dock_is_shown (d : SearchDock.State) :
SearchDock.Reachable fe d ->
SearchDock.initialized d = false -> SearchDock.nothing_loaded d.
Proof.
induction 1 as [|d _ IH|d _ IH|h d _ IH|d _ IH Hconn|d _ IH Hq|h d _ IH Ht
                |text d _ IH|h d _ IH Ht|h index d _ IH Hi|h index d _ IH Hi];
  intros Hinit.
- repeat split.
- unfold SearchDock.Initialize, SearchDock.ConnectSignals in *.
  destruct (SearchDock.signalsConnected d); [auto|].
  destruct (SearchDock.obs_get_signal_handler fe); auto.
- assert (Hd : SearchDock.initialized d = false).
  { unfold SearchDock.Cleanup, SearchDock.DisconnectSignals in Hinit.
    destruct (negb (SearchDock.signalsConnected d)); exact Hinit. }
  destruct (IH Hd) as (_ & _ & _ & Hr & Hq).
  unfold SearchDock.Cleanup, SearchDock.DisconnectSignals.
  destruct (negb (SearchDock.signalsConnected d)); repeat split; assumption.
- unfold SearchDock.showEvent in *.
  destruct (SearchDock.initialized d) eqn:E; cbn [negb] in *; [congruence|discriminate].
- unfold SearchDock.OnSourceSignal in *.
  destruct (SearchDock.initialized d) eqn:E; [discriminate|auto].
- destruct (IH Hinit) as (_ & _ & _ & _ & Hz). lia.
- destruct (IH Hinit) as (_ & _ & _ & Hr & _). congruence.
- destruct (IH Hinit) as (Hc & Hrows & Hbox & Hr & Hq). repeat split; try assumption;
    apply Hc.
- destruct (IH Hinit) as (Hc & Hrows & Hbox & Hr & Hq).
  repeat split; try assumption; try apply Hc.
  apply UpdateResults_no_records, Hc.
- unfold SearchDock.OnSearchScopeChanged in *.
  destruct (index <? 0)%Z; [auto|].
  destruct (IH Hinit) as (Hc & Hrows & Hbox & Hr & Hq).
  repeat split; try assumption; try apply Hc.
  apply UpdateResults_no_records, Hc.
- assert (Hd : SearchDock.initialized d = false).
  { unfold SearchDock.type_picked, SearchDock.OnTypeFilterChanged in Hinit.
    destruct (index <? 0)%Z; exact Hinit. }
  destruct (IH Hd) as (_ & _ & Hbox & _). rewrite Hbox in Hi. simpl in Hi. lia.
Qed.

(** The rows always belong to the collection in force: in every state the
  dock can be in, the result list is what [UpdateResults] gives for the
  present collection (under some host, search text, type filter and
  scope), so that the record behind each row is a record of the present
  collection. *)
Theorem rows_belong_to_the_present_collection (d : SearchDock.State) :
SearchDock.Reachable fe d ->
(exists h searchText typeFilter scope,
    SearchDock.resultsList d
    = Dock.UpdateResults h (SearchDock.sourceCollection d) searchText typeFilter scope)
/\ forall row, In row (SearchDock.resultsList d) ->
               In (snd row) (sources (SearchDock.sourceCollection d)).
Proof.
intros Hd.
assert (Hrows : exists h searchText typeFilter scope,
           SearchDock.resultsList d
           = Dock.UpdateResults h (SearchDock.sourceCollection d)
               searchText typeFilter scope).
{ induction Hd as [|d _ IH|d _ IH|h d _ IH|d _ IH Hconn|d _ IH Hq|h d _ IH Ht
                   |text d _ IH|h d _ IH Ht|h index d _ IH Hi|h index d _ IH Hi].
  - exists SearchDock.empty_host, "", "", "". reflexivity.
  - unfold SearchDock.Initialize, SearchDock.ConnectSignals.
    destruct (SearchDock.signalsConnected d); [exact IH|].
    destruct (SearchDock.obs_get_signal_handler fe); exact IH.
  - exists SearchDock.empty_host, "", "", "".
    unfold SearchDock.Cleanup, SearchDock.DisconnectSignals.
    destruct (negb (SearchDock.signalsConnected d)); reflexivity.
  - unfold SearchDock.showEvent. destruct (negb (SearchDock.initialized d)); [|exact IH].
    eexists h, _, _, _. reflexivity.
  - unfold SearchDock.OnSourceSignal. destruct (SearchDock.initialized d); exact IH.
  - exact IH.
  - eexists h, _, _, _. reflexivity.
  - exact IH.
  - eexists h, _, _, _. reflexivity.
  - unfold SearchDock.OnSearchScopeChanged. destruct (index <? 0)%Z; [exact IH|].
    eexists h, _, _, _. reflexivity.
  - unfold SearchDock.type_picked, SearchDock.OnTypeFilterChanged.
    destruct (index <? 0)%Z; [exact IH|]. eexists h, _, _, _. reflexivity. }
split; [exact Hrows|]. destruct Hrows as (h & s & t & sc & ->).
intros row Hin. apply UpdateResults_In in Hin. destruct Hin as (_ & Hin & _).
apply Search_In in Hin. tauto.
Qed.

(** After a refresh the type filter in force is "all" or the type tag of
  a record of the new snapshot: a filter whose type has no record any more
  is reset, one whose type still has records is kept; and the rows are the
  results over the new snapshot for the text, that type filter and the
  scope in force. *)
Theorem OnSourcesChanged_keeps_a_live_type_filter (h : Host) (d : SearchDock.State) :
let d' := SearchDock.OnSourcesChanged h fe d in
SearchDock.sourceCollection d' = Collection.Refresh h (SearchDock.sourceCollection d)
/\ (SearchDock.currentTypeFilter d' = "all"
    \/ exists it, In it (sources (SearchDock.sourceCollection d'))
                  /\ cachedTypeId it = SearchDock.currentTypeFilter d')
/\ ((exists it, In it (sources (SearchDock.sourceCollection d'))
                /\ cachedTypeId it = SearchDock.currentTypeFilter d) ->
    SearchDock.currentTypeFilter d' = SearchDock.currentTypeFilter d)
/\ SearchDock.resultsList d'
   = Dock.UpdateResults h (SearchDock.sourceCollection d')
       (SearchDock.currentSearchText d) (SearchDock.currentTypeFilter d')
       (SearchDock.currentSearchScope d).
Proof.
cbn zeta. split; [reflexivity|].
set (c := Collection.Refresh h (SearchDock.sourceCollection d)).
set (d1 := SearchDock.with_collection c d).
destruct (UpdateTypeFilter_restores_the_selection_aux fe d1) as (Hkeep & Hreset).
change (SearchDock.currentTypeFilter (SearchDock.OnSourcesChanged h fe d))
  with (SearchDock.currentTypeFilter (SearchDock.UpdateTypeFilter fe d1)).
change (SearchDock.sourceCollection (SearchDock.OnSourcesChanged h fe d)) with c.
change (SearchDock.currentTypeFilter d1) with (SearchDock.currentTypeFilter d) in *.
change (SearchDock.sourceCollection d1) with c in *.
destruct (catalog_InPass h c (InPass_Refresh h _)) as [Hkeys Hrecs].
split; [|split; [|reflexivity]].
- destruct (String.eqb_spec (SearchDock.currentTypeFilter d) "all") as [Hall|Hall];
    [left; rewrite Hkeep; auto|].
  destruct (discoveredTypes c !! SearchDock.currentTypeFilter d) as [v|] eqn:Hv.
  + right. rewrite Hkeep by (right; eauto).
    destruct (Hkeys _ _ Hv) as (_ & it & Hin & Hit). eauto.
  + left. now apply Hreset.
- intros (it & Hin & Hit). apply Hkeep. right. rewrite <- Hit, (Hrecs _ Hin). eauto.
Qed.

End DockStates.
